(** * task1.py: a CSMA/CD station simulation

    Shallow embedding of [src/task1/task1.py].  Every [Station] is a thread
    running [Station.run]; the class attributes [Station.frameBuffer] and
    [Station.isMediumIdle] are the state shared by all threads.  A thread is
    modelled by its private fields plus a control point inside [run]; one
    step of a thread executes the statements between two accesses to the
    shared attributes, so that every interleaving of the threads' accesses
    is an execution of the model.

    Durations ([sleep] arguments) are exact rationals; the binary64 value
    that Python computes is given next to them for the largest backoff
    period.  [print]/[printMsg] write to the console only and are left
    out. *)

From Stdlib Require Import ZArith QArith Lia Ascii String Floats Uint63.
From stdpp Require Import base decidable option list strings pretty.
From Stdlib Require Import Lqa.

Close Scope Q_scope.
Open Scope nat_scope.

(** ** Class attributes of [Station] (lines 20-25) *)

Definition frameTemplate (name count : string) : string :=
  "Station " +:+ name +:+ ". Frame " +:+ count +:+ "." +:+ String "010"%char EmptyString.

Definition interframeGap : Q := 5 # 10.
Definition slotTime : Q := 96 # 10000000.
Definition maxAttemptCount : nat := 15.

(** The shared class attributes that threads mutate. *)
Record Medium := mkMedium {
  frameBuffer : string;
  isMediumIdle : bool
}.

Definition medium0 : Medium :=
  {| frameBuffer := EmptyString; isMediumIdle := true |}.

(** ** Station objects *)

(** How [run] is left: the [while] test fails, or [break] at line 70. *)
Inductive exit := QuotaReached | MaxAttemptsExceeded.

(** Control points of [run].
    - [AtLoop]: before the test of the outer [while] (line 55);
    - [AtSense]: before the test of the inner [while] (line 56);
    - [AtMark]: before [Station.isMediumIdle = False] (line 60);
    - [AtWrite frame]: before [Station.frameBuffer = frame] (line 63);
    - [AtVerify frame]: before the read of the buffer (line 66);
    - [AtCollide]: in the collision branch (lines 67-75);
    - [AtSuccess]: in the [else] branch (lines 78-81);
    - [AtEnd e]: [run] has returned. *)
Inductive point :=
  | AtLoop
  | AtSense
  | AtMark
  | AtWrite (frame : string)
  | AtVerify (frame : string)
  | AtCollide
  | AtSuccess
  | AtEnd (e : exit).

Record Station := mkStation {
  name : string;
  frameCount : nat;
  transmittedCount : nat;
  attemptNumber : nat;
  at_ : point
}.

(** [Station.__init__] (lines 27-39). *)
Definition Station_init (name : string) (frameCount : nat) : Station :=
  {| name := name; frameCount := frameCount;
     transmittedCount := 0; attemptNumber := 1; at_ := AtLoop |}.

Definition goto (p : point) (st : Station) : Station :=
  {| name := name st; frameCount := frameCount st;
     transmittedCount := transmittedCount st;
     attemptNumber := attemptNumber st; at_ := p |}.

Definition set_attemptNumber (a : nat) (st : Station) : Station :=
  {| name := name st; frameCount := frameCount st;
     transmittedCount := transmittedCount st;
     attemptNumber := a; at_ := at_ st |}.

Definition set_transmittedCount (c : nat) (st : Station) : Station :=
  {| name := name st; frameCount := frameCount st;
     transmittedCount := c;
     attemptNumber := attemptNumber st; at_ := at_ st |}.

Definition set_isMediumIdle (b : bool) (m : Medium) : Medium :=
  {| frameBuffer := frameBuffer m; isMediumIdle := b |}.

Definition set_frameBuffer (f : string) (m : Medium) : Medium :=
  {| frameBuffer := f; isMediumIdle := isMediumIdle m |}.

(** [Station.frameTemplate.format(self.name, self.transmittedCount)]
    (line 61); [pretty] is the decimal numeral of a natural number, as
    [str] gives it. *)
Definition frameOf (st : Station) : string :=
  frameTemplate (name st) (pretty (transmittedCount st)).

(** [isCollisionDetected] (lines 100-101). *)
Definition isCollisionDetected (frame : string) (m : Medium) : bool :=
  bool_decide (frame ≠ frameBuffer m).

(** ** Randomness

    A random draw is the list of its equally likely outcomes. *)

(** [randint(a, b)]: an integer of [a..b], both ends included. *)
Definition randint (a b : Z) : list Z :=
  (λ i : nat, (a + Z.of_nat i)%Z) <$> seq 0 (Z.to_nat (b - a + 1)).

(** The period of line 104 when [randint] returns [r]. *)
Definition backoffPeriod (r : Z) : Q :=
  (interframeGap + slotTime * inject_Z r)%Q.

(** [getBackoffPeriod] (lines 103-104). *)
Definition getBackoffPeriod (st : Station) : list Q :=
  backoffPeriod <$> randint 0 (2 ^ Z.of_nat (attemptNumber st)).

(** The largest period [getBackoffPeriod] can return at attempt [k]. *)
Definition maxBackoffPeriod (k : nat) : Q :=
  backoffPeriod (2 ^ Z.of_nat k).

(** The same period in binary64 arithmetic, for [k] small enough for [2^k]
    to be a machine integer. *)
Set Warnings "-inexact-float".
Definition maxBackoffPeriod64 (k : nat) : float :=
  (0.5 + 9.6e-6 * PrimFloat.of_uint63 (Uint63.of_Z (2 ^ Z.of_nat k)))%float.
Set Warnings "+inexact-float".

Fixpoint nondecreasing64 (l : list float) : bool :=
  match l with
  | x :: l' =>
      match l' with
      | y :: _ => PrimFloat.leb x y && nondecreasing64 l'
      | [] => true
      end
  | [] => true
  end.

(** ** One step of [Station.run] (lines 55-81) *)

Definition run_step (st : Station) (m : Medium) : Station * Medium :=
  match at_ st with
  | AtLoop =>
      if transmittedCount st <? frameCount st
      then (goto AtSense st, m)
      else (goto (AtEnd QuotaReached) st, m)
  | AtSense =>
      if isMediumIdle m then (goto AtMark st, m) else (st, m)
  | AtMark =>
      (goto (AtWrite (frameOf st)) st, set_isMediumIdle false m)
  | AtWrite frame =>
      (goto (AtVerify frame) st, set_frameBuffer frame m)
  | AtVerify frame =>
      if isCollisionDetected frame m
      then (goto AtCollide st, m)
      else (goto AtSuccess st, m)
  | AtCollide =>
      if maxAttemptCount <? attemptNumber st
      then (goto (AtEnd MaxAttemptsExceeded) st, m)
      else (goto AtLoop (set_attemptNumber (attemptNumber st + 1) st), m)
  | AtSuccess =>
      (goto AtLoop
         (set_attemptNumber 1
            (set_transmittedCount (transmittedCount st + 1) st)),
       set_isMediumIdle true m)
  | AtEnd _ => (st, m)
  end.


Definition ended (st : Station) : bool :=
  match at_ st with AtEnd _ => true | _ => false end.

(** ** Sessions (lines 107-118) *)

Record Session := mkSession {
  stations : list Station;
  medium : Medium
}.

(** The list comprehension of line 110. *)
Definition runSession_stations (stationCount : nat) : list Station :=
  (λ i, Station_init ("Apollo" +:+ pretty i) (i + 1)) <$> seq 0 stationCount.

Definition runSession_start (stationCount : nat) : Session :=
  {| stations := runSession_stations stationCount; medium := medium0 |}.

(** Thread [i] takes one step. *)
Definition session_step (i : nat) (s : Session) : Session :=
  match stations s !! i with
  | Some st =>
      let '(st', m') := run_step st (medium s) in
      {| stations := <[i := st']> (stations s); medium := m' |}
  | None => s
  end.

(** The threads scheduled in the order [sched]. *)
Definition session_run (sched : list nat) (s : Session) : Session :=
  foldl (λ s i, session_step i s) s sched.

(** The sessions that some interleaving of the started threads reaches. *)
Inductive reachable (stationCount : nat) : Session → Prop :=
  | reachable_start : reachable stationCount (runSession_start stationCount)
  | reachable_step i s :
      reachable stationCount s →
      i < length (stations s) →
      reachable stationCount (session_step i s).

(** Every [join] of lines 115-116 has returned. *)
Definition all_joined (s : Session) : bool :=
  forallb ended (stations s).

(** What a call may return: [None], or a mapping from station names to a
    delivered count and the way [run] was left. *)
Inductive value :=
  | PyNone
  | PyDict (items : list (string * (nat * exit))).

(** [runSession(stationCount)] returns [v], the threads being left as in
    [s]: the [join] loop of lines 115-116 is over once every thread has
    ended, and the function has no [return] statement. *)
Definition runSession_returns
    (stationCount : nat) (s : Session) (v : value) : Prop :=
  reachable stationCount s ∧ all_joined s = true ∧ v = PyNone.

(** [v] gives, for every station of the session [s], its delivered count
    and the way its [run] was left. *)
Definition is_SessionResult (stationCount : nat) (s : Session) (v : value) : Prop :=
  ∃ items, v = PyDict items ∧
    ∀ i, i < stationCount →
      ∃ st e, stations s !! i = Some st ∧ at_ st = AtEnd e ∧
              (name st, (transmittedCount st, e)) ∈ items.

(** ** The command line (lines 120-139) *)

Definition usageMsg : string :=
  String "010"%char
    ("    Usage: python3 task1.py <stationCount>"
     +:+ String "010"%char "    ").

(** What the program does: it prints a message, or it calls
    [runSession]. *)
Inductive outcome :=
  | Printed (msg : string)
  | RunSession (stationCount : Z).

Section Main.

(** The builtin [int] on strings ([None] for a [ValueError]) and the
    result of [cpu_count()]. *)
Variable int : string → option Z.
Variable cpu_count : Z.

Definition main (argv : list string) : outcome :=
  match argv with
  | [_; arg] =>
      match int arg with
      | Some stationCount =>
          if (cpu_count <? stationCount)%Z
          then Printed "Station count is greater than CPU count"
          else if (stationCount <? 1)%Z
          then Printed "Enter positive station count"
          else RunSession stationCount
      | None => Printed "Station count is not a number"
      end
  | _ => Printed usageMsg
  end.

End Main.

(** [int] on strings of ASCII characters: blanks around the numeral are
    dropped, a sign may come first, and single underscores may separate
    digits. *)
Definition is_py_space (a : ascii) : bool :=
  let n := nat_of_ascii a in
  ((9 <=? n) && (n <=? 13)) || ((28 <=? n) && (n <=? 32)).

Fixpoint lstrip (s : string) : string :=
  match s with
  | String a s' => if is_py_space a then lstrip s' else s
  | EmptyString => s
  end.

Definition strip (s : string) : string :=
  String.rev (lstrip (String.rev (lstrip s))).

Fixpoint digits_from (acc : Z) (s : string) : option Z :=
  match s with
  | EmptyString => Some acc
  | String a s' =>
      match Ascii.is_nat a with
      | Some d => digits_from (10 * acc + Z.of_nat d) s'
      | None =>
          match s' with
          | String b s'' =>
              match Ascii.is_nat b with
              | Some d =>
                  if bool_decide (a = "_"%char)
                  then digits_from (10 * acc + Z.of_nat d) s''
                  else None
              | None => None
              end
          | EmptyString => None
          end
      end
  end.

Definition digits (s : string) : option Z :=
  match s with
  | String a s' =>
      match Ascii.is_nat a with
      | Some d => digits_from (Z.of_nat d) s'
      | None => None
      end
  | EmptyString => None
  end.

Definition int_ascii (s : string) : option Z :=
  match strip s with
  | String a s' =>
      if bool_decide (a = "-"%char) then Z.opp <$> digits s'
      else if bool_decide (a = "+"%char) then digits s'
      else digits (String a s')
  | EmptyString => None
  end.

(** ** Auxiliary functions for the proofs *)

(** Whether the character [a] occurs in [s]. *)
Fixpoint has (a : ascii) (s : string) : bool :=
  match s with
  | EmptyString => false
  | String b s' => bool_decide (a = b) || has a s'
  end.


(** What holds of the station of index [i] throughout a session. *)
Definition station_inv (i : nat) (st : Station) : Prop :=
  name st = "Apollo" +:+ pretty i ∧
  frameCount st = i + 1 ∧
  1 ≤ attemptNumber st ≤ maxAttemptCount + 1 ∧
  match at_ st with
  | AtLoop => transmittedCount st ≤ frameCount st
  | AtWrite f | AtVerify f =>
      f = frameOf st ∧ transmittedCount st < frameCount st
  | AtEnd QuotaReached => transmittedCount st = frameCount st
  | _ => transmittedCount st < frameCount st
  end.

(** A contention round of the threads [a] and [b]: both find the medium
    idle, [a] writes its frame, [b] overwrites it; [a] detects the
    collision and backs off, [b] delivers. *)
Definition collision_round (a b : nat) : list nat :=
  [a; a; b; b; a; a; b; b; a; b; b; a].

(** One transmission of thread [a] on its own, from the [while] test up to
    the read of the buffer. *)
Definition solo_attempt (a : nat) : list nat := [a; a; a; a].

(** The buffer holds a frame of a station other than the one of index [i]. *)
Definition foreign_frame (i : nat) (b : string) : Prop :=
  ∃ j c : nat, j ≠ i ∧ b = frameTemplate ("Apollo" +:+ pretty j) (pretty c).

(** Two threads find the medium idle and both write; the thread 1 writes
    last. *)
Definition overlap_schedule : list nat := [0; 0; 1; 1; 0; 0; 1; 1].

(** Fifteen collisions of the thread 0 with the thread 15 in
    [runSession(16)], then a sixteenth transmission of the thread 0 on its
    own, up to the read of the buffer. *)
Definition last_attempt_schedule : list nat :=
  concat (replicate 15 (collision_round 0 15)) ++ solo_attempt 0.

(** A station that has marked the medium busy and may still mark it idle:
    it is about to write, it has written and its frame is still in the
    buffer, or it is in the success branch. *)
Definition in_flight (m : Medium) (st : Station) : Prop :=
  match at_ st with
  | AtWrite _ | AtSuccess => True
  | AtVerify f => f = frameBuffer m
  | _ => False
  end.

(** A bound on the steps a station can still take, polling apart. *)
Definition steps_left (st : Station) : nat :=
  let body := (frameCount st - transmittedCount st) * 120
              + (maxAttemptCount + 2 - attemptNumber st) * 7 in
  match at_ st with
  | AtLoop => body + 6
  | AtSense => body + 5
  | AtMark => body + 4
  | AtWrite _ => body + 3
  | AtVerify _ => body + 2
  | AtCollide | AtSuccess => body + 1
  | AtEnd _ => 0
  end.

Definition session_steps_left (s : Session) : nat :=
  sum_list (steps_left <$> stations s).

(** ** Trace messages (lines 25, 41-46 and 85-98) *)

(** [s * n] on strings. *)
Fixpoint str_mul (s : string) (n : nat) : string :=
  match n with
  | 0 => EmptyString
  | S n' => s +:+ str_mul s n'
  end.

Definition msgDelimeter : string := str_mul "-" 20.

(** [Station.__str__] (lines 41-46). *)
Definition Station_str (st : Station) : string :=
  "Station(" +:+ name st +:+ ")".

(** [getTransmittedCountMsg] (lines 85-86). *)
Definition getTransmittedCountMsg (st : Station) : string :=
  pretty (transmittedCount st) +:+ " frames successfully transmitted".

(** [getMsgDelimeter] (lines 88-89). *)
Definition getMsgDelimeter (st : Station) : string := str_mul "-" 20.

(** The line break and the eight blanks that start the lines of the
    literal of lines 92-98. *)
Definition msgBreak : string := String "010"%char "        ".

(** What [printMsg] (lines 91-98) writes, [print]'s line break included;
    [timestamp] is the text of [time()]. *)
Definition printMsg (timestamp : string) (st : Station) (msg : string) : string :=
  msgDelimeter +:+ msgBreak
  +:+ Station_str st +:+ msgBreak
  +:+ "Msg: " +:+ msg +:+ msgBreak
  +:+ "Frames successfully transmitted: " +:+ pretty (transmittedCount st)
  +:+ msgBreak
  +:+ "Timestamp: " +:+ timestamp +:+ msgBreak
  +:+ msgDelimeter +:+ msgBreak
  +:+ String "010"%char EmptyString.

(** ** Counting steps *)

(** A step that changes nothing: the thread has ended, or it polls a busy
    medium (lines 56-57). *)
Definition stutters (st : Station) (m : Medium) : bool :=
  match at_ st with
  | AtSense => negb (isMediumIdle m)
  | AtEnd _ => true
  | _ => false
  end.

Definition effective (i : nat) (s : Session) : bool :=
  match stations s !! i with
  | Some st => negb (stutters st (medium s))
  | None => false
  end.

(** The number of steps of [sched], run from [s], that are no stutter. *)
Fixpoint effective_steps (sched : list nat) (s : Session) : nat :=
  match sched with
  | [] => 0
  | i :: sched' =>
      (if effective i s then 1 else 0)
      + effective_steps sched' (session_step i s)
  end.

(** ** Further auxiliary predicates *)

(** The buffer holds a frame of another station of [runSession(n)]. *)
Definition other_frame (n i : nat) (b : string) : Prop :=
  ∃ j c : nat, j ≠ i ∧ j < n ∧ c ≤ j
               ∧ b = frameTemplate ("Apollo" +:+ pretty j) (pretty c).

(** How [attemptNumber] stands at the loop test and after the end. *)
Definition exit_inv (st : Station) : Prop :=
  match at_ st with
  | AtLoop => transmittedCount st = frameCount st → attemptNumber st = 1
  | AtEnd QuotaReached => attemptNumber st = 1
  | AtEnd MaxAttemptsExceeded => attemptNumber st = maxAttemptCount + 1
  | _ => True
  end.

(** The station has not written yet. *)
Definition before_write (st : Station) : Prop :=
  transmittedCount st = 0 ∧
  match at_ st with
  | AtLoop | AtSense | AtMark | AtWrite _ => True
  | _ => False
  end.

(** The station wrote the frame [b] and nothing was written since: it
    waits to read [b] back, or it is in the success branch for [b], or it
    has delivered [b] and has not written again. *)
Definition wrote_last (b : string) (st : Station) : Prop :=
  match at_ st with
  | AtVerify f => f = b
  | AtSuccess => b = frameOf st
  | AtLoop | AtSense | AtMark | AtWrite _ | AtEnd QuotaReached =>
      ∃ c, transmittedCount st = c + 1
           ∧ b = frameTemplate (name st) (pretty c)
  | _ => False
  end.

Definition last_writer_inv (s : Session) : Prop :=
  (frameBuffer (medium s) = EmptyString
   ∧ ∀ i st, stations s !! i = Some st → before_write st)
  ∨ ∃ j st, stations s !! j = Some st
            ∧ wrote_last (frameBuffer (medium s)) st.

(** * Properties *)

(** ** Strings and frames *)

Module Str.

Lemma app_cons a s t : String a s +:+ t = String a (s +:+ t).
Proof. reflexivity. Qed.

Lemma app_nil s : EmptyString +:+ s = s.
Proof. reflexivity. Qed.

Lemma app_assoc s t u : (s +:+ t) +:+ u = s +:+ t +:+ u.
Proof.
  induction s as [|a s IH]; [reflexivity|].
  rewrite !app_cons. by rewrite IH.
Qed.

Lemma length_app s t :
  String.length (s +:+ t) = String.length s + String.length t.
Proof.
  induction s as [|a s IH]; [reflexivity|].
  rewrite app_cons. simpl. by rewrite IH.
Qed.

Lemma has_app a s t : has a (s +:+ t) = has a s || has a t.
Proof.
  induction s as [|b s IH]; [reflexivity|].
  rewrite app_cons. simpl. rewrite IH. by rewrite orb_assoc.
Qed.

(** A common suffix can be cancelled. *)
Lemma app_inj_tail s1 s2 t : s1 +:+ t = s2 +:+ t → s1 = s2.
Proof.
  revert s2. induction s1 as [|a s1 IH]; intros [|b s2] H.
  - reflexivity.
  - apply (f_equal String.length) in H.
    rewrite app_nil, app_cons in H. simpl in H.
    rewrite length_app in H. lia.
  - apply (f_equal String.length) in H.
    rewrite app_nil, app_cons in H. simpl in H.
    rewrite length_app in H. lia.
  - rewrite !app_cons in H. injection H as -> H. f_equal. by apply IH.
Qed.

(** A string is cut at its last occurrence of [a] in one way only. *)
Lemma last_cut a x y u v :
  has a u = false → has a v = false →
  x +:+ String a u = y +:+ String a v → x = y ∧ u = v.
Proof.
  intros Hu Hv. revert y.
  induction x as [|b x IH]; intros [|c y] H.
  - rewrite !app_nil in H. by injection H.
  - rewrite app_nil, app_cons in H. injection H as _ H.
    rewrite H, has_app in Hu. simpl in Hu.
    rewrite bool_decide_eq_true_2 in Hu by done.
    by rewrite orb_true_r in Hu.
  - rewrite app_nil, app_cons in H. injection H as _ H.
    rewrite <- H, has_app in Hv. simpl in Hv.
    rewrite bool_decide_eq_true_2 in Hv by done.
    by rewrite orb_true_r in Hv.
  - rewrite !app_cons in H. injection H as -> H.
    destruct (IH _ H) as [-> ->]. done.
Qed.

Lemma pretty_N_char_no_space x : pretty_N_char x ≠ " "%char.
Proof. unfold pretty_N_char. by repeat case_match. Qed.

Lemma pretty_N_go_no_space x s :
  has " " s = false → has " " (pretty_N_go x s) = false.
Proof.
  revert s. induction (N.lt_wf_0 x) as [x _ IH]; intros s Hs.
  destruct (decide (x = 0%N)) as [->|Hx].
  - by rewrite pretty_N_go_0.
  - rewrite pretty_N_go_step by lia. apply IH.
    + apply N.div_lt; lia.
    + simpl. rewrite Hs, orb_false_r.
      apply bool_decide_eq_false_2. intros Heq.
      by apply (pretty_N_char_no_space (x `mod` 10)%N).
Qed.

(** [str(n)] has no blank. *)
Lemma pretty_nat_no_space (n : nat) : has " " (pretty n) = false.
Proof.
  unfold pretty, pretty_nat, pretty, pretty_N.
  case_decide; [reflexivity|]. by apply pretty_N_go_no_space.
Qed.

End Str.

(** Frames built for different names differ, whatever the counts. *)
Lemma frameTemplate_name_inj (n1 n2 : string) (c1 c2 : nat) :
  frameTemplate n1 (pretty c1) = frameTemplate n2 (pretty c2) → n1 = n2.
Proof.
  unfold frameTemplate. intros H.
  apply (inj (String.append "Station ")) in H.
  change (n1 +:+ ". Frame " +:+ pretty c1 +:+ "." +:+ String "010" EmptyString)
    with (n1 +:+ ". Frame" +:+ String " " (pretty c1 +:+ "." +:+ String "010" EmptyString))
    in H.
  change (n2 +:+ ". Frame " +:+ pretty c2 +:+ "." +:+ String "010" EmptyString)
    with (n2 +:+ ". Frame" +:+ String " " (pretty c2 +:+ "." +:+ String "010" EmptyString))
    in H.
  rewrite <- !(Str.app_assoc _ ". Frame") in H.
  apply Str.last_cut in H as [H _].
  - by apply Str.app_inj_tail in H.
  - rewrite Str.has_app, Str.pretty_nat_no_space. reflexivity.
  - rewrite Str.has_app, Str.pretty_nat_no_space. reflexivity.
Qed.

(** ** Steps of one station *)

Lemma run_step_AtVerify st f m :
  at_ st = AtVerify f →
  run_step st m =
    (goto (if isCollisionDetected f m then AtCollide else AtSuccess) st, m).
Proof. unfold run_step. intros ->. by destruct (isCollisionDetected f m). Qed.

Lemma run_step_AtCollide st m :
  at_ st = AtCollide →
  run_step st m =
    if maxAttemptCount <? attemptNumber st
    then (goto (AtEnd MaxAttemptsExceeded) st, m)
    else (goto AtLoop (set_attemptNumber (attemptNumber st + 1) st), m).
Proof. unfold run_step. by intros ->. Qed.

Lemma run_step_AtSuccess st m :
  at_ st = AtSuccess →
  run_step st m =
    (goto AtLoop
       (set_attemptNumber 1
          (set_transmittedCount (transmittedCount st + 1) st)),
     set_isMediumIdle true m).
Proof. unfold run_step. by intros ->. Qed.

Lemma run_step_AtLoop st m :
  at_ st = AtLoop →
  run_step st m =
    (goto (if transmittedCount st <? frameCount st
           then AtSense else AtEnd QuotaReached) st, m).
Proof.
  unfold run_step. intros ->.
  by destruct (transmittedCount st <? frameCount st).
Qed.

Lemma run_step_AtEnd st e m : at_ st = AtEnd e → run_step st m = (st, m).
Proof. unfold run_step. by intros ->. Qed.


Lemma station_inv_step i st m :
  station_inv i st → station_inv i (run_step st m).1.
Proof.
  unfold station_inv, run_step, frameOf, maxAttemptCount.
  destruct st as [nm fc tc an p]; simpl.
  intros (Hn & Hf & Ha & Hp).
  destruct p as [| | |f|f| | |[]]; simpl in *;
    repeat case_match; simpl;
    repeat match goal with
      | H : (_ <? _) = true |- _ => apply Nat.ltb_lt in H
      | H : (_ <? _) = false |- _ => apply Nat.ltb_ge in H
      end;
    try destruct Hp; repeat split; try done; try lia.
Qed.

(** ** Sessions *)

Lemma session_step_at i s st :
  stations s !! i = Some st →
  stations (session_step i s) !! i = Some (run_step st (medium s)).1 ∧
  medium (session_step i s) = (run_step st (medium s)).2.
Proof.
  intros Hi. unfold session_step. rewrite Hi.
  destruct (run_step st (medium s)) as [st' m'] eqn:E. simpl. split; [|done].
  apply list_lookup_insert_eq. by eapply lookup_lt_Some.
Qed.

Lemma session_step_other i j s :
  i ≠ j → stations (session_step i s) !! j = stations s !! j.
Proof.
  intros Hij. unfold session_step.
  destruct (stations s !! i) as [st|]; [|done].
  destruct (run_step st (medium s)) as [st' m']. simpl.
  by apply list_lookup_insert_ne.
Qed.

Lemma session_step_length i s :
  length (stations (session_step i s)) = length (stations s).
Proof.
  unfold session_step.
  destruct (stations s !! i) as [st|]; [|done].
  destruct (run_step st (medium s)) as [st' m']. simpl.
  apply length_insert.
Qed.

Lemma session_step_out i s :
  length (stations s) ≤ i → session_step i s = s.
Proof.
  intros Hi. unfold session_step. by rewrite (lookup_ge_None_2 _ _ Hi).
Qed.

Lemma runSession_stations_lookup n i :
  i < n →
  runSession_stations n !! i
  = Some (Station_init ("Apollo" +:+ pretty i) (i + 1)).
Proof.
  intros Hi. unfold runSession_stations.
  rewrite list_lookup_fmap, lookup_seq_lt by done. reflexivity.
Qed.

Lemma runSession_stations_length n : length (runSession_stations n) = n.
Proof. unfold runSession_stations. by rewrite length_fmap, length_seq. Qed.

Lemma reachable_run n sched s :
  reachable n s → reachable n (session_run sched s).
Proof.
  revert s. induction sched as [|i sched IH]; intros s Hs; [done|].
  simpl. apply IH.
  destruct (decide (i < length (stations s))) as [Hi|Hi].
  - by constructor.
  - rewrite session_step_out by lia. done.
Qed.

Lemma reachable_inv n s :
  reachable n s →
  length (stations s) = n ∧
  ∀ i st, stations s !! i = Some st → station_inv i st.
Proof.
  induction 1 as [|i s Hs [Hlen IH] Hi].
  - split; [apply runSession_stations_length|].
    intros i st Hst. simpl in Hst.
    assert (i < n) as Hi.
    { apply lookup_lt_Some in Hst. by rewrite runSession_stations_length in Hst. }
    rewrite runSession_stations_lookup in Hst by done.
    injection Hst as <-. unfold station_inv, maxAttemptCount. simpl.
    repeat split; lia.
  - split; [by rewrite session_step_length|].
    intros j st Hst. destruct (decide (i = j)) as [->|Hij].
    + destruct (lookup_lt_is_Some_2 _ _ Hi) as [st0 Hst0].
      destruct (session_step_at _ _ _ Hst0) as [Hst' _].
      rewrite Hst' in Hst. injection Hst as <-.
      apply station_inv_step. by apply IH.
    + rewrite session_step_other in Hst by done. by apply IH.
Qed.

(** ** Collision detection *)

(** C1. A station that has written the frame [f] detects a collision exactly
    when the shared buffer differs from [f]: [isCollisionDetected] is the
    test [f != Station.frameBuffer] and nothing else, and the step at line
    66 of [run] enters the collision branch or the [else] branch on that
    test alone, without touching the shared attributes. *)
Theorem isCollisionDetected_iff_differs (st : Station) (f : string) (m : Medium) :
  (isCollisionDetected f m = true ↔ f ≠ frameBuffer m) ∧
  (isCollisionDetected f m = false ↔ f = frameBuffer m) ∧
  run_step (goto (AtVerify f) st) m
  = (goto (if isCollisionDetected f m then AtCollide else AtSuccess) st, m).
Proof.
  unfold isCollisionDetected. split; [|split].
  - apply bool_decide_eq_true.
  - rewrite bool_decide_eq_false. split; [|by intros ->; auto].
    intros H. by destruct (decide (f = frameBuffer m)).
  - by rewrite (run_step_AtVerify _ f).
Qed.


(** C3 as amended. A station whose [attemptNumber] is [maxAttemptCount + 1]
    still transmits.  If it then detects a collision, it ends by the [break]
    of line 70, its delivered count unchanged for good.  If it detects no
    collision, the frame is delivered: the count grows by one and
    [attemptNumber] is reset to 1. *)
Theorem last_attempt_outcome (st : Station) (f : string) (m m' : Medium) :
  at_ st = AtVerify f →
  attemptNumber st = maxAttemptCount + 1 →
  let r := run_step (run_step st m).1 m' in
  (isCollisionDetected f m = true →
     r = (goto (AtEnd MaxAttemptsExceeded) st, m') ∧
     transmittedCount r.1 = transmittedCount st ∧
     ∀ m'', run_step r.1 m'' = (r.1, m'')) ∧
  (isCollisionDetected f m = false →
     r.1 = goto AtLoop
             (set_attemptNumber 1
                (set_transmittedCount (transmittedCount st + 1) st)) ∧
     transmittedCount r.1 = transmittedCount st + 1 ∧
     attemptNumber r.1 = 1).
Proof.
  intros Hat Han r. subst r. rewrite (run_step_AtVerify st f m) by done.
  split; intros ->; cbn [fst snd].
  - rewrite (run_step_AtCollide (goto AtCollide st)) by done. simpl.
    rewrite Han. simpl. split; [done|]. split; [done|].
    intros m''. by apply (run_step_AtEnd _ MaxAttemptsExceeded).
  - rewrite (run_step_AtSuccess (goto AtSuccess st)) by done. by simpl.
Qed.

(** C4. When a station reads the buffer and finds its own frame, it enters
    the success branch, where the delivered count grows by exactly one,
    [attemptNumber] becomes 1 and the medium is marked idle (the buffer is
    not touched); at the next test of the outer loop it ends with the quota
    reached exactly when the new count is no longer below [frameCount], and
    goes to the sensing loop otherwise.  [m2] and [m3] are the shared
    attributes at the later steps. *)
Theorem success_iteration (st : Station) (f : string) (m m2 m3 : Medium) :
  at_ st = AtVerify f →
  isCollisionDetected f m = false →
  let r1 := run_step st m in
  let r2 := run_step r1.1 m2 in
  let r3 := run_step r2.1 m3 in
  r1 = (goto AtSuccess st, m) ∧
  transmittedCount r2.1 = transmittedCount st + 1 ∧
  attemptNumber r2.1 = 1 ∧
  at_ r2.1 = AtLoop ∧
  r2.2 = set_isMediumIdle true m2 ∧
  isMediumIdle r2.2 = true ∧
  r3.2 = m3 ∧
  (at_ r3.1 = AtEnd QuotaReached ↔ frameCount st ≤ transmittedCount st + 1) ∧
  (at_ r3.1 = AtSense ↔ transmittedCount st + 1 < frameCount st) ∧
  transmittedCount r3.1 = transmittedCount st + 1.
Proof.
  intros Hat Hcol r1 r2 r3.
  assert (r1 = (goto AtSuccess st, m)) as Hr1.
  { unfold r1. by rewrite (run_step_AtVerify _ f), Hcol. }
  subst r3 r2. rewrite Hr1. cbn [fst snd].
  rewrite (run_step_AtSuccess (goto AtSuccess st)) by done. cbn [fst snd].
  rewrite run_step_AtLoop by done. simpl.
  repeat (split; [done|]).
  destruct (transmittedCount st + 1 <? frameCount st) eqn:E; simpl.
  - apply Nat.ltb_lt in E. repeat split; try done; lia.
  - apply Nat.ltb_ge in E. repeat split; try done; lia.
Qed.


(** C7. [runSession(n)] builds exactly [n] stations, the one of index [i]
    with a quota of [i + 1] frames: 1, 2 and 3 frames for [runSession(3)]. *)
Theorem runSession_quotas (n i : nat) :
  1 ≤ n → i < n →
  length (runSession_stations n) = n ∧
  frameCount <$> runSession_stations n !! i = Some (i + 1) ∧
  frameCount <$> runSession_stations 3 = [1; 2; 3].
Proof.
  intros _ Hi. split; [apply runSession_stations_length|].
  by rewrite runSession_stations_lookup.
Qed.


(** C3 as stated fails: in [runSession(16)] the thread 0 collides fifteen
    times with the thread 15, reaches [attemptNumber = 16] with nothing
    delivered, transmits a sixteenth time without interference, and then
    delivers its frame and ends with its quota reached. *)
Lemma delivery_at_last_attempt :
  let s := session_run last_attempt_schedule (runSession_start 16) in
  let s' := session_run [0; 0; 0] s in
  reachable 16 s ∧
  attemptNumber <$> stations s !! 0 = Some (maxAttemptCount + 1) ∧
  transmittedCount <$> stations s !! 0 = Some 0 ∧
  reachable 16 s' ∧
  transmittedCount <$> stations s' !! 0 = Some 1 ∧
  at_ <$> stations s' !! 0 = Some (AtEnd QuotaReached).
Proof.
  intros s s'.
  split; [apply reachable_run, reachable_start|].
  split; [vm_compute; reflexivity|].
  split; [vm_compute; reflexivity|].
  split; [apply reachable_run, reachable_run, reachable_start|].
  split; vm_compute; reflexivity.
Qed.

Lemma last_attempt_outcome_witness :
  let s := session_run last_attempt_schedule (runSession_start 16) in
  let f := frameOf (Station_init "Apollo0" 1) in
  let st := goto (AtVerify f) (set_attemptNumber 16 (Station_init "Apollo0" 1)) in
  stations s !! 0 = Some st ∧
  isCollisionDetected f (medium s) = false ∧
  transmittedCount (run_step (run_step st (medium s)).1 (medium s)).1 = 1.
Proof.
  intros s f st.
  split; [vm_compute; reflexivity|].
  assert (isCollisionDetected f (medium s) = false) as Hcol
    by (vm_compute; reflexivity).
  split; [assumption|].
  exact (proj1 (proj2
    (proj2 (last_attempt_outcome st f (medium s) (medium s) eq_refl eq_refl)
       Hcol))).
Defined.

Lemma success_iteration_witness :
  let st0 := Station_init "Apollo0" 1 in
  let st := goto (AtVerify (frameOf st0)) st0 in
  let m := {| frameBuffer := frameOf st0; isMediumIdle := false |} in
  isCollisionDetected (frameOf st0) m = false ∧
  transmittedCount (run_step (run_step st m).1 m).1 = 1 ∧
  isMediumIdle (run_step (run_step st m).1 m).2 = true.
Proof.
  intros st0 st m.
  assert (isCollisionDetected (frameOf st0) m = false) as Hcol
    by (vm_compute; reflexivity).
  split; [assumption|].
  pose proof (success_iteration st (frameOf st0) m m m eq_refl Hcol) as H.
  simpl in H. destruct H as (_ & H2 & _ & _ & _ & H6 & _).
  split; [exact H2 | exact H6].
Defined.


Lemma runSession_quotas_witness :
  1 ≤ 3 ∧ 2 < 3 ∧
  length (runSession_stations 3) = 3 ∧
  frameCount <$> runSession_stations 3 !! 2 = Some 3.
Proof.
  assert (1 ≤ 3) as H1 by lia. assert (2 < 3) as H2 by lia.
  repeat (split; [assumption|]).
  pose proof (runSession_quotas 3 2 H1 H2) as (Hl & Hq & _).
  split; [exact Hl | exact Hq].
Defined.

(** ** Frames of different stations *)

Lemma Apollo_inj (i j : nat) :
  "Apollo" +:+ pretty i = "Apollo" +:+ pretty j → i = j.
Proof. intros H. apply (inj (String.append "Apollo")) in H. by apply (inj pretty). Qed.

Lemma run_step_buffer st m :
  frameBuffer (run_step st m).2 = frameBuffer m
  ∨ at_ st = AtWrite (frameBuffer (run_step st m).2).
Proof.
  unfold run_step. destruct (at_ st) eqn:E; repeat case_match; simpl; auto.
Qed.

Lemma foreign_frame_step n s i k :
  reachable n s → k ≠ i →
  foreign_frame i (frameBuffer (medium s)) →
  foreign_frame i (frameBuffer (medium (session_step k s))).
Proof.
  intros Hs Hk Hfor.
  destruct (stations s !! k) as [st|] eqn:Hst.
  - destruct (session_step_at _ _ _ Hst) as [_ ->].
    destruct (run_step_buffer st (medium s)) as [-> | Hw]; [done|].
    destruct (reachable_inv _ _ Hs) as [_ Hinv].
    destruct (Hinv _ _ Hst) as (Hn & _ & _ & Hp).
    rewrite Hw in Hp. destruct Hp as [-> _].
    exists k, (transmittedCount st). split; [done|].
    unfold frameOf. by rewrite Hn.
  - rewrite session_step_out; [done|]. by apply lookup_ge_None.
Qed.

Lemma foreign_frame_run n sched s i :
  reachable n s → i ∉ sched →
  foreign_frame i (frameBuffer (medium s)) →
  stations (session_run sched s) !! i = stations s !! i ∧
  foreign_frame i (frameBuffer (medium (session_run sched s))).
Proof.
  revert s. induction sched as [|k sched IH]; intros s Hs Hi Hfor; [done|].
  apply not_elem_of_cons in Hi as [Hik Hi]. simpl.
  destruct (IH (session_step k s)) as [Hst Hfor']; try done.
  - destruct (decide (k < length (stations s))).
    + by constructor.
    + rewrite session_step_out by lia. done.
  - by eapply foreign_frame_step.
  - split; [|done]. rewrite Hst. by apply session_step_other.
Qed.

Lemma foreign_frame_collides i st f m :
  station_inv i st → at_ st = AtVerify f →
  foreign_frame i (frameBuffer m) →
  isCollisionDetected f m = true.
Proof.
  intros (Hn & _ & _ & Hp) Hat (j & c & Hji & Hb).
  rewrite Hat in Hp. destruct Hp as [-> _].
  unfold isCollisionDetected. apply bool_decide_eq_true.
  rewrite Hb. unfold frameOf. rewrite Hn. intros Heq.
  apply frameTemplate_name_inj, Apollo_inj in Heq. congruence.
Qed.

(** C10. Frames built from the template for two different station names
    differ, whatever the two delivered counts are; [runSession] names its
    stations [Apollo0], [Apollo1], ..., all different.  So when a station
    has written its frame and waits to read the buffer back, and another
    station then overwrites the buffer, the first station detects a
    collision at its next step, whatever the other threads (the schedule
    [sched], without [i]) do in between. *)
Theorem frames_of_distinct_stations_differ :
  (∀ (n1 n2 : string) (c1 c2 : nat),
     n1 ≠ n2 → frameTemplate n1 (pretty c1) ≠ frameTemplate n2 (pretty c2)) ∧
  (∀ n : nat,
     name <$> runSession_stations n
     = (λ i : nat, "Apollo" +:+ pretty i) <$> seq 0 n) ∧
  (∀ n : nat, NoDup (name <$> runSession_stations n)) ∧
  (∀ (n i j : nat) (s : Session) (sti stj : Station) (f f' : string)
     (sched : list nat),
     reachable n s → i ≠ j →
     stations s !! i = Some sti → at_ sti = AtVerify f →
     stations s !! j = Some stj → at_ stj = AtWrite f' →
     i ∉ sched →
     let s' := session_run sched (session_step j s) in
     stations s' !! i = Some sti ∧
     frameBuffer (medium (session_step j s)) = f' ∧
     isCollisionDetected f (medium s') = true ∧
     run_step sti (medium s') = (goto AtCollide sti, medium s')).
Proof.
  assert (∀ n : nat, name <$> runSession_stations n
                     = (λ i : nat, "Apollo" +:+ pretty i) <$> seq 0 n) as Hnames.
  { intros n. unfold runSession_stations. rewrite <- list_fmap_compose.
    by apply list_fmap_ext. }
  split; [|split; [done|split]].
  - intros n1 n2 c1 c2 Hne Heq. by apply Hne, (frameTemplate_name_inj _ _ c1 c2).
  - intros n. rewrite Hnames. apply NoDup_fmap_2; [|apply NoDup_seq].
    intros i j. apply Apollo_inj.
  - intros n i j s sti stj f f' sched Hs Hij Hi Hati Hj Hatj Hsched s'.
    destruct (reachable_inv _ _ Hs) as [_ Hinv].
    pose proof (Hinv _ _ Hi) as Hinvi.
    destruct (Hinv _ _ Hj) as (Hnj & _ & _ & Hpj).
    rewrite Hatj in Hpj. destruct Hpj as [Hf' _].
    destruct (session_step_at _ _ _ Hj) as [_ Hm].
    assert (frameBuffer (medium (session_step j s)) = f') as Hbuf.
    { rewrite Hm. unfold run_step. by rewrite Hatj. }
    assert (reachable n (session_step j s)) as Hs1.
    { constructor; [done|]. by eapply lookup_lt_Some. }
    destruct (foreign_frame_run n sched (session_step j s) i Hs1 Hsched)
      as [Hst Hfor].
    { exists j, (transmittedCount stj). split; [done|].
      rewrite Hbuf, Hf'. unfold frameOf. by rewrite Hnj. }
    assert (stations s' !! i = Some sti) as Hi'.
    { unfold s'. rewrite Hst, session_step_other by done. done. }
    assert (isCollisionDetected f (medium s') = true) as Hcol.
    { by eapply foreign_frame_collides. }
    repeat (split; [done|]).
    by rewrite (run_step_AtVerify sti f), Hcol.
Qed.

Lemma frames_of_distinct_stations_differ_witness :
  let s := session_run [0; 0; 1; 1; 0; 0; 1] (runSession_start 2) in
  let f := frameOf (Station_init "Apollo0" 1) in
  let f' := frameOf (Station_init "Apollo1" 2) in
  let sti := goto (AtVerify f) (Station_init "Apollo0" 1) in
  let stj := goto (AtWrite f') (Station_init "Apollo1" 2) in
  reachable 2 s ∧ stations s !! 0 = Some sti ∧ stations s !! 1 = Some stj ∧
  isCollisionDetected f (medium (session_run [1] (session_step 1 s))) = true.
Proof.
  intros s f f' sti stj.
  assert (reachable 2 s) as Hs by apply reachable_run, reachable_start.
  assert (stations s !! 0 = Some sti) as Hi by (vm_compute; reflexivity).
  assert (stations s !! 1 = Some stj) as Hj by (vm_compute; reflexivity).
  assert (0 ≠ 1) as Hne by lia.
  assert (0 ∉ [1]) as Hsched by (by apply not_elem_of_cons; split; [lia|apply not_elem_of_nil]).
  repeat (split; [assumption|]).
  exact (proj1 (proj2 (proj2
    (proj2 (proj2 (proj2 frames_of_distinct_stations_differ))
       2 0 1 s sti stj f f' [1] Hs Hne Hi eq_refl Hj eq_refl Hsched)))).
Defined.

(** ** Backoff *)

Lemma elem_of_randint (a b r : Z) : r ∈ randint a b ↔ (a ≤ r ≤ b)%Z.
Proof.
  unfold randint. rewrite list_elem_of_fmap. split.
  - intros (i & -> & Hi). apply elem_of_seq in Hi. lia.
  - intros Hr. exists (Z.to_nat (r - a)). split; [lia|].
    apply elem_of_seq. lia.
Qed.

Lemma NoDup_randint (a b : Z) : NoDup (randint a b).
Proof.
  unfold randint. apply NoDup_fmap_2; [|apply NoDup_seq].
  intros i j Hij. lia.
Qed.

Lemma length_randint (a b : Z) :
  length (randint a b) = Z.to_nat (b - a + 1).
Proof. unfold randint. by rewrite length_fmap, length_seq. Qed.

Lemma backoffPeriod_mono (r r' : Z) :
  (r ≤ r')%Z → (backoffPeriod r <= backoffPeriod r')%Q.
Proof.
  intros Hr. unfold backoffPeriod.
  apply Qplus_le_r. apply Qmult_le_l; [reflexivity|].
  by rewrite <- Zle_Qle.
Qed.

(** C6. At attempt [k] the backoff period is
    [interframeGap + 9.6e-6 * r] for an [r] drawn from the integers
    [0..2^k], both ends included and each as likely as the others.  The
    largest period of attempt [k] is [interframeGap + 9.6e-6 * 2^k], and it
    does not decrease when [k] grows; neither does its binary64 value over
    the attempts 1 to 16, the only ones a station makes. *)
Theorem backoffPeriod_range (st : Station) (k k' : nat) :
  attemptNumber st = k → 1 ≤ k → k ≤ k' →
  getBackoffPeriod st
  = (λ r : Z, ((5 # 10) + (96 # 10000000) * inject_Z r)%Q)
      <$> randint 0 (2 ^ Z.of_nat k) ∧
  (∀ r : Z, r ∈ randint 0 (2 ^ Z.of_nat k) ↔ (0 ≤ r ≤ 2 ^ Z.of_nat k)%Z) ∧
  NoDup (randint 0 (2 ^ Z.of_nat k)) ∧
  length (randint 0 (2 ^ Z.of_nat k)) = 2 ^ k + 1 ∧
  maxBackoffPeriod k ∈ getBackoffPeriod st ∧
  (∀ q : Q, q ∈ getBackoffPeriod st →
     (interframeGap <= q)%Q ∧ (q <= maxBackoffPeriod k)%Q) ∧
  maxBackoffPeriod k = (interframeGap + slotTime * inject_Z (2 ^ Z.of_nat k))%Q ∧
  (maxBackoffPeriod k <= maxBackoffPeriod k')%Q ∧
  nondecreasing64 (maxBackoffPeriod64 <$> seq 1 (maxAttemptCount + 1)) = true.
Proof.
  intros Hk _ Hkk'. unfold getBackoffPeriod, maxBackoffPeriod. rewrite Hk.
  assert (0 ≤ 2 ^ Z.of_nat k)%Z as Hpow by (apply Z.pow_nonneg; lia).
  split; [reflexivity|].
  split; [intros r; apply elem_of_randint|].
  split; [apply NoDup_randint|].
  split.
  { rewrite length_randint.
    replace (2 ^ Z.of_nat k - 0 + 1)%Z with (Z.of_nat (2 ^ k + 1)); [lia|].
    rewrite Nat2Z.inj_add, Nat2Z.inj_pow. simpl. lia. }
  split.
  { apply list_elem_of_fmap. exists (2 ^ Z.of_nat k)%Z. split; [done|].
    apply elem_of_randint. lia. }
  split.
  { intros q Hq. apply list_elem_of_fmap in Hq as (r & -> & Hr).
    apply elem_of_randint in Hr. split.
    - apply (Qle_trans _ (backoffPeriod 0)); [by vm_compute|].
      apply backoffPeriod_mono. lia.
    - apply backoffPeriod_mono. lia. }
  split; [reflexivity|].
  split; [|by vm_compute].
  apply backoffPeriod_mono. apply Z.pow_le_mono_r; lia.
Qed.

Lemma backoffPeriod_range_witness :
  let st := set_attemptNumber 3 (Station_init "Apollo0" 1) in
  attemptNumber st = 3 ∧ 1 ≤ 3 ∧ 3 ≤ 4 ∧
  length (randint 0 (2 ^ Z.of_nat 3)) = 9 ∧
  (maxBackoffPeriod 3 <= maxBackoffPeriod 4)%Q.
Proof.
  intros st.
  assert (1 ≤ 3) as H1 by lia. assert (3 ≤ 4) as H2 by lia.
  split; [reflexivity|]. repeat (split; [assumption|]).
  pose proof (backoffPeriod_range st 3 4 eq_refl H1 H2)
    as (_ & _ & _ & Hlen & _ & _ & _ & Hmax & _).
  split; [exact Hlen | exact Hmax].
Defined.

(** ** Completion of a session *)

(** While the medium is marked busy, some station is in flight. *)
Lemma busy_in_flight n s :
  reachable n s →
  isMediumIdle (medium s) = false →
  ∃ i st, stations s !! i = Some st ∧ in_flight (medium s) st.
Proof.
  induction 1 as [|k s Hs IH Hk]; [discriminate|].
  destruct (lookup_lt_is_Some_2 _ _ Hk) as [stk Hstk].
  destruct (session_step_at _ _ _ Hstk) as [Hk' Hm].
  rewrite Hm. intros Hbusy.
  assert (in_flight (run_step stk (medium s)).2 (run_step stk (medium s)).1
          ∨ (¬ in_flight (medium s) stk
             ∧ (run_step stk (medium s)).2 = medium s)) as [Hin|[Hout Heq]].
  { revert Hbusy. unfold in_flight, run_step.
    destruct (at_ stk) eqn:E; simpl;
      try (destruct (transmittedCount stk <? frameCount stk));
      try (destruct (isMediumIdle (medium s)) eqn:Hidle);
      try (destruct (isCollisionDetected frame (medium s)) eqn:Hcol);
      try (destruct (maxAttemptCount <? attemptNumber stk));
      simpl; rewrite ?E; auto; try discriminate.
    all: intros _; right; split; [|done].
    all: by apply bool_decide_eq_true in Hcol. }
  - exists k, (run_step stk (medium s)).1. done.
  - rewrite Heq in Hbusy |- *. destruct (IH Hbusy) as (i & st & Hi & Hin).
    exists i, st. split; [|done].
    rewrite session_step_other; [done|]. intros ->.
    rewrite Hstk in Hi. injection Hi as ->. done.
Qed.

(** A step other than a fruitless poll brings the station closer to its
    end. *)
Lemma steps_left_step i st m :
  station_inv i st → ended st = false →
  (at_ st = AtSense → isMediumIdle m = true) →
  steps_left (run_step st m).1 < steps_left st.
Proof.
  unfold station_inv, ended, steps_left, run_step.
  intros (_ & _ & Ha & Hp) Hend Hidle. revert Ha Hp Hend Hidle.
  unfold maxAttemptCount.
  destruct (at_ st) eqn:E; intros Ha Hp Hend Hidle; try discriminate;
    try rewrite Hidle by done;
    try (destruct (transmittedCount st <? frameCount st) eqn:Hlt);
    try (destruct (isCollisionDetected frame m));
    try (destruct (15 <? attemptNumber st) eqn:Hmax);
    cbn [fst at_ goto set_attemptNumber set_transmittedCount
         frameCount transmittedCount attemptNumber];
    repeat match goal with
      | H : (_ <? _) = true |- _ => apply Nat.ltb_lt in H
      | H : (_ <? _) = false |- _ => apply Nat.ltb_ge in H
      end;
    try destruct Hp; lia.
Qed.

Lemma sum_list_insert (f : Station → nat) l i x y :
  l !! i = Some x →
  sum_list (f <$> <[i := y]> l) + f x = sum_list (f <$> l) + f y.
Proof.
  revert i. induction l as [|z l IH]; intros [|i] Hi; simplify_eq/=.
  - lia.
  - specialize (IH _ Hi). lia.
Qed.

Lemma all_joined_false s :
  all_joined s = false →
  ∃ i st, stations s !! i = Some st ∧ ended st = false.
Proof.
  unfold all_joined. induction (stations s) as [|st l IH]; [discriminate|].
  simpl. destruct (ended st) eqn:E; simpl.
  - intros H. destruct (IH H) as (i & st' & Hi & He). by exists (S i), st'.
  - intros _. by exists 0, st.
Qed.

(** Unless every thread has ended, some thread can take a step that brings
    the session closer to its end. *)
Lemma session_progress n s :
  reachable n s → all_joined s = false →
  ∃ i, i < length (stations s)
       ∧ session_steps_left (session_step i s) < session_steps_left s.
Proof.
  intros Hs Hj. destruct (reachable_inv _ _ Hs) as [_ Hinv].
  assert (∃ i st, stations s !! i = Some st ∧ ended st = false
                  ∧ (at_ st = AtSense → isMediumIdle (medium s) = true))
    as (i & st & Hi & He & Hsense).
  { destruct (isMediumIdle (medium s)) eqn:Hidle.
    - destruct (all_joined_false _ Hj) as (i & st & Hi & He). by exists i, st.
    - destruct (busy_in_flight _ _ Hs Hidle) as (i & st & Hi & Hin).
      exists i, st. split; [done|]. revert Hin. unfold in_flight, ended.
      destruct (at_ st); try done. }
  exists i. split; [by eapply lookup_lt_Some|].
  pose proof (steps_left_step i st (medium s) (Hinv _ _ Hi) He Hsense) as Hlt.
  unfold session_steps_left, session_step. rewrite Hi.
  destruct (run_step st (medium s)) as [st' m'] eqn:E. simpl in *.
  pose proof (sum_list_insert steps_left _ _ _ st' Hi). lia.
Qed.

(** From every session that can be reached, some schedule leads to the end
    of all threads. *)
Lemma session_can_complete n s :
  reachable n s → ∃ sched, all_joined (session_run sched s) = true.
Proof.
  remember (session_steps_left s) as k eqn:Hk. revert s Hk.
  induction (lt_wf k) as [k _ IH]. intros s -> Hs.
  destruct (all_joined s) eqn:Hj; [by exists []|].
  destruct (session_progress _ _ Hs Hj) as (i & Hi & Hlt).
  destruct (IH _ Hlt (session_step i s) eq_refl) as [sched Hsched].
  { by constructor. }
  by exists (i :: sched).
Qed.

Lemma all_joined_lookup s i st :
  all_joined s = true → stations s !! i = Some st → ∃ e, at_ st = AtEnd e.
Proof.
  unfold all_joined. revert i.
  induction (stations s) as [|st0 l IH]; intros i Hall Hi; [done|].
  simpl in Hall. apply andb_true_iff in Hall as [H0 Hall].
  destruct i as [|i]; simpl in Hi.
  - injection Hi as ->. unfold ended in H0.
    destruct (at_ st) as [| | | | | | |e]; try discriminate. by exists e.
  - by eapply IH.
Qed.

(** C8 as stated fails: [runSession(1)] can return, it returns [None], and
    [None] is no record of the station's delivered count and way of
    ending. *)
Lemma runSession_no_result :
  let s := session_run (replicate 7 0) (runSession_start 1) in
  runSession_returns 1 s PyNone ∧
  ∀ v, runSession_returns 1 s v → ¬ is_SessionResult 1 s v.
Proof.
  intros s. split.
  - split; [apply reachable_run, reachable_start|]. by split.
  - intros v (_ & _ & ->) (items & Hv & _). discriminate.
Qed.

(** C8 as amended. [runSession(n)] returns only when every station has
    ended, and what it returns is [None]: no result is built.  The
    delivered counts stay in the station objects, equal to the quota
    [i + 1] for a station that left its loop by the test and below it for
    one that left by [break]; nothing records which of the two happened.
    Whatever the threads have done so far, some schedule lets all of them
    end, so that [runSession(n)] can return. *)
Theorem runSession_returns_None (n : nat) :
  (∃ s, runSession_returns n s PyNone) ∧
  (∀ s, reachable n s →
     ∃ sched, runSession_returns n (session_run sched s) PyNone) ∧
  (∀ s v, runSession_returns n s v →
     v = PyNone ∧
     length (stations s) = n ∧
     ∀ i, i < n →
       ∃ st e, stations s !! i = Some st ∧ at_ st = AtEnd e ∧
         name st = "Apollo" +:+ pretty i ∧
         match e with
         | QuotaReached => transmittedCount st = i + 1
         | MaxAttemptsExceeded => transmittedCount st < i + 1
         end).
Proof.
  assert (∀ s, reachable n s →
            ∃ sched, runSession_returns n (session_run sched s) PyNone) as Hrun.
  { intros s Hs. destruct (session_can_complete _ _ Hs) as [sched Hj].
    exists sched. split; [by apply reachable_run|]. by split. }
  split; [|split; [done|]].
  - destruct (Hrun _ (reachable_start n)) as [sched H]. by eexists.
  - intros s v (Hs & Hj & ->). destruct (reachable_inv _ _ Hs) as [Hlen Hinv].
    split; [done|]. split; [done|]. intros i Hi.
    destruct (lookup_lt_is_Some_2 (stations s) i) as [st Hst]; [lia|].
    destruct (all_joined_lookup _ _ _ Hj Hst) as [e He].
    exists st, e. split; [done|]. split; [done|].
    destruct (Hinv _ _ Hst) as (Hn & Hf & _ & Hp).
    split; [done|]. rewrite He in Hp. rewrite <- Hf. by destruct e.
Qed.

(** ** The command line *)

(** C9. The program calls [runSession(n)] exactly when it is given one
    argument that [int] turns into an [n] with [1 <= n <= cpu_count()].
    In every other case it only prints a message: for an argument that is
    not a number, for a count above the CPU count, for a count below 1,
    and for a wrong number of arguments. *)
Theorem main_runs_session_iff
    (int : string → option Z) (cpu_count : Z) (argv : list string) :
  (∀ n : Z,
     main int cpu_count argv = RunSession n
     ↔ ∃ prog arg, argv = [prog; arg] ∧ int arg = Some n
                   ∧ (1 ≤ n ≤ cpu_count)%Z) ∧
  (∀ prog arg, argv = [prog; arg] → int arg = None →
     main int cpu_count argv = Printed "Station count is not a number") ∧
  (∀ prog arg n, argv = [prog; arg] → int arg = Some n → (cpu_count < n)%Z →
     main int cpu_count argv
     = Printed "Station count is greater than CPU count") ∧
  (∀ prog arg n, argv = [prog; arg] → int arg = Some n →
     (n ≤ cpu_count)%Z → (n < 1)%Z →
     main int cpu_count argv = Printed "Enter positive station count") ∧
  (length argv ≠ 2 → main int cpu_count argv = Printed usageMsg).
Proof.
  split; [|split; [|split; [|split]]].
  - intros n. split.
    + unfold main. destruct argv as [|prog [|arg [|? ?]]]; try done.
      destruct (int arg) as [k|] eqn:Hint; [|done].
      destruct (cpu_count <? k)%Z eqn:Hcpu; [done|].
      destruct (k <? 1)%Z eqn:Hpos; [done|].
      intros [= ->]. exists prog, arg.
      apply Z.ltb_ge in Hcpu, Hpos. done.
    + intros (prog & arg & -> & Hint & Hlo & Hhi). unfold main. rewrite Hint.
      apply Z.ltb_ge in Hhi. apply Z.ltb_ge in Hlo. by rewrite Hhi, Hlo.
  - intros prog arg -> Hint. unfold main. by rewrite Hint.
  - intros prog arg n -> Hint Hn. unfold main. rewrite Hint.
    apply Z.ltb_lt in Hn. by rewrite Hn.
  - intros prog arg n -> Hint Hle Hn. unfold main. rewrite Hint.
    apply Z.ltb_ge in Hle. apply Z.ltb_lt in Hn. by rewrite Hle, Hn.
  - intros Hlen. unfold main. by destruct argv as [|prog [|arg [|? ?]]].
Qed.

Example main_three_stations :
  main int_ascii 4 ["task1.py"; "3"] = RunSession 3.
Proof. reflexivity. Qed.

Example main_not_a_number :
  main int_ascii 4 ["task1.py"; "three"]
  = Printed "Station count is not a number".
Proof. reflexivity. Qed.

Example main_too_many :
  main int_ascii 4 ["task1.py"; "5"]
  = Printed "Station count is greater than CPU count".
Proof. reflexivity. Qed.

Example main_not_positive :
  main int_ascii 4 ["task1.py"; " -2 "]
  = Printed "Enter positive station count".
Proof. reflexivity. Qed.

Example main_no_argument :
  main int_ascii 4 ["task1.py"] = Printed usageMsg.
Proof. reflexivity. Qed.

(** * Further properties *)

(** ** Frames and trace messages *)

Module Str2.

(** A string is cut at its first occurrence of [a] in one way only. *)
Lemma first_cut a x y u v :
  has a x = false → has a y = false →
  x +:+ String a u = y +:+ String a v → x = y ∧ u = v.
Proof.
  revert y. induction x as [|b x IH]; intros [|c y] Hx Hy H.
  - rewrite !Str.app_nil in H. by injection H.
  - rewrite Str.app_nil, Str.app_cons in H. injection H as -> _.
    simpl in Hy. rewrite bool_decide_eq_true_2 in Hy by done. done.
  - rewrite Str.app_nil, Str.app_cons in H. injection H as -> _.
    simpl in Hx. rewrite bool_decide_eq_true_2 in Hx by done. done.
  - rewrite !Str.app_cons in H. injection H as -> H.
    simpl in Hx, Hy. apply orb_false_iff in Hx as [_ Hx].
    apply orb_false_iff in Hy as [_ Hy].
    destruct (IH _ Hx Hy H) as [-> ->]. done.
Qed.

Lemma pretty_N_char_digit x : is_Some (Ascii.is_nat (pretty_N_char x)).
Proof. unfold pretty_N_char. repeat case_match; by eexists. Qed.

Lemma pretty_N_go_digits a x s :
  Ascii.is_nat a = None →
  has a s = false → has a (pretty_N_go x s) = false.
Proof.
  intros Ha. revert s. induction (N.lt_wf_0 x) as [x _ IH]; intros s Hs.
  destruct (decide (x = 0%N)) as [->|Hx].
  - by rewrite pretty_N_go_0.
  - rewrite pretty_N_go_step by lia. apply IH.
    + apply N.div_lt; lia.
    + simpl. rewrite Hs, orb_false_r.
      apply bool_decide_eq_false_2. intros ->.
      destruct (pretty_N_char_digit (x `mod` 10)%N) as [d Hd]. congruence.
Qed.

(** [str(n)] is made of digits. *)
Lemma pretty_nat_digits a (n : nat) :
  Ascii.is_nat a = None → has a (pretty n) = false.
Proof.
  intros Ha. unfold pretty, pretty_nat, pretty, pretty_N.
  case_decide.
  - simpl. rewrite orb_false_r. apply bool_decide_eq_false_2. by intros ->.
  - by apply pretty_N_go_digits.
Qed.

End Str2.

(** X1. A frame determines the name and the delivered count it was built
    from: two frames are equal only for the same name and the same
    count. *)
Theorem frame_decodes (n1 n2 : string) (c1 c2 : nat) :
  frameTemplate n1 (pretty c1) = frameTemplate n2 (pretty c2)
  ↔ n1 = n2 ∧ c1 = c2.
Proof.
  split; [|by intros [-> ->]].
  intros H. pose proof (frameTemplate_name_inj _ _ _ _ H) as ->.
  split; [done|]. unfold frameTemplate in H.
  apply (inj (String.append "Station ")) in H.
  apply (inj (String.append n2)) in H.
  apply (inj (String.append ". Frame ")) in H.
  apply Str.app_inj_tail in H. by apply (inj pretty).
Qed.

(** X2. The texts of [__str__] and of [getTransmittedCountMsg] determine
    the station name and the delivered count; [getMsgDelimeter] returns the
    delimiter that [printMsg] writes, twenty dashes. *)
Theorem renderings_injective (st1 st2 : Station) :
  (Station_str st1 = Station_str st2 ↔ name st1 = name st2) ∧
  (getTransmittedCountMsg st1 = getTransmittedCountMsg st2
   ↔ transmittedCount st1 = transmittedCount st2) ∧
  getMsgDelimeter st1 = msgDelimeter ∧
  String.length (getMsgDelimeter st1) = 20.
Proof.
  unfold Station_str, getTransmittedCountMsg.
  split; [|split; [|split; done]].
  - split; [|by intros ->]. intros H.
    apply (inj (String.append "Station(")) in H.
    by apply Str.app_inj_tail in H.
  - split; [|by intros ->]. intros H.
    apply Str.app_inj_tail in H. by apply (inj pretty).
Qed.

(** X3. In a session the text written by [printMsg] tells which station
    wrote it: two stations of different indices never write the same text,
    whatever the messages, the counts and the timestamps. *)
Theorem printMsg_identifies_station
    (n i j : nat) (s : Session) (sti stj : Station) (t1 t2 msg1 msg2 : string) :
  reachable n s →
  stations s !! i = Some sti →
  stations s !! j = Some stj →
  i ≠ j →
  printMsg t1 sti msg1 ≠ printMsg t2 stj msg2.
Proof.
  intros Hs Hi Hj Hij H. apply Hij.
  destruct (reachable_inv _ _ Hs) as [_ Hinv].
  destruct (Hinv _ _ Hi) as (Hni & _). destruct (Hinv _ _ Hj) as (Hnj & _).
  unfold printMsg, Station_str in H. rewrite Hni, Hnj in H.
  apply (inj (String.append msgDelimeter)) in H.
  apply (inj (String.append msgBreak)) in H.
  rewrite !Str.app_assoc in H.
  apply (inj (String.append "Station(")) in H.
  apply (inj (String.append "Apollo")) in H.
  change (")" +:+ ?r) with (String ")" r) in H.
  apply Str2.first_cut in H as [H _]; [by apply (inj pretty)| |];
    by apply Str2.pretty_nat_digits.
Qed.

Lemma printMsg_identifies_station_witness :
  let s := runSession_start 2 in
  reachable 2 s ∧ 0 ≠ 1 ∧
  printMsg "17.5" (Station_init "Apollo0" 1) "Running started"
  ≠ printMsg "17.5" (Station_init "Apollo1" 2) "Running started".
Proof.
  intros s. assert (reachable 2 s) as Hs by apply reachable_start.
  assert (0 ≠ 1) as Hne by lia.
  repeat (split; [assumption|]).
  exact (printMsg_identifies_station 2 0 1 s _ _ "17.5" "17.5"
           "Running started" "Running started" Hs eq_refl eq_refl Hne).
Defined.

(** ** What the buffer holds *)

Lemma reachable_station_ind (P : nat → Station → Prop) n :
  (∀ i, i < n → P i (Station_init ("Apollo" +:+ pretty i) (i + 1))) →
  (∀ i st m, station_inv i st → P i st → P i (run_step st m).1) →
  ∀ s, reachable n s → ∀ i st, stations s !! i = Some st → P i st.
Proof.
  intros Hinit Hstep s Hs. induction Hs as [|k s Hs IH Hk]; intros i st Hst.
  - simpl in Hst.
    assert (i < n) as Hi.
    { apply lookup_lt_Some in Hst. by rewrite runSession_stations_length in Hst. }
    rewrite runSession_stations_lookup in Hst by done.
    injection Hst as <-. by apply Hinit.
  - destruct (decide (k = i)) as [->|Hki].
    + destruct (lookup_lt_is_Some_2 _ _ Hk) as [st0 Hst0].
      destruct (session_step_at _ _ _ Hst0) as [Hst' _].
      rewrite Hst' in Hst. injection Hst as <-.
      apply Hstep; [|by apply IH].
      destruct (reachable_inv _ _ Hs) as [_ Hinv]. by apply Hinv.
    + rewrite session_step_other in Hst by done. by apply IH.
Qed.

(** What a thread writes to the buffer is its own current frame. *)
Lemma written_frame n s k st :
  reachable n s → stations s !! k = Some st →
  at_ st = AtWrite (frameBuffer (run_step st (medium s)).2) →
  k < n ∧ transmittedCount st ≤ k ∧
  frameBuffer (run_step st (medium s)).2
  = frameTemplate ("Apollo" +:+ pretty k) (pretty (transmittedCount st)).
Proof.
  intros Hs Hst Hw. destruct (reachable_inv _ _ Hs) as [Hlen Hinv].
  destruct (Hinv _ _ Hst) as (Hn & Hf & _ & Hp).
  rewrite Hw in Hp. destruct Hp as [Hfr Hlt].
  split; [apply lookup_lt_Some in Hst; lia|]. split; [lia|].
  rewrite Hfr at 1. unfold frameOf. by rewrite Hn.
Qed.

Lemma run_step_to_verify st f m :
  at_ (run_step st m).1 = AtVerify f →
  at_ st = AtWrite f ∧ frameBuffer (run_step st m).2 = f.
Proof.
  unfold run_step.
  destruct (at_ st) eqn:E; simpl;
    try (destruct (transmittedCount st <? frameCount st));
    try (destruct (isMediumIdle m));
    try (destruct (isCollisionDetected frame m));
    try (destruct (maxAttemptCount <? attemptNumber st));
    simpl; rewrite ?E; intros H; try discriminate H.
  all: by injection H as ->.
Qed.

(** A station that waits to read the buffer back finds there its own
    frame or a frame of another station. *)
Lemma verify_inv n s :
  reachable n s →
  ∀ i st f, stations s !! i = Some st → at_ st = AtVerify f →
    frameBuffer (medium s) = f ∨ other_frame n i (frameBuffer (medium s)).
Proof.
  induction 1 as [|k s Hs IH Hk]; intros i st f Hst Hat.
  - simpl in Hst.
    assert (i < n) as Hi.
    { apply lookup_lt_Some in Hst. by rewrite runSession_stations_length in Hst. }
    rewrite runSession_stations_lookup in Hst by done.
    injection Hst as <-. discriminate.
  - destruct (lookup_lt_is_Some_2 _ _ Hk) as [stk Hstk].
    destruct (session_step_at _ _ _ Hstk) as [Hst' Hm]. rewrite Hm.
    destruct (decide (k = i)) as [->|Hki].
    + rewrite Hst' in Hst. injection Hst as <-.
      left. by apply run_step_to_verify in Hat as [_ ?].
    + rewrite session_step_other in Hst by done.
      destruct (run_step_buffer stk (medium s)) as [-> | Hw]; [by eapply IH|].
      right. destruct (written_frame _ _ _ _ Hs Hstk Hw) as (Hkn & Hc & Hb).
      by exists k, (transmittedCount stk).
Qed.

(** X4. The buffer is empty, as at the start, or it holds the frame of a
    station of the session for a delivered count below that station's
    quota: nothing else is ever written to it. *)
Theorem buffer_holds_a_session_frame (n : nat) (s : Session) :
  reachable n s →
  frameBuffer (medium s) = EmptyString
  ∨ ∃ j c : nat, j < n ∧ c < j + 1 ∧
      frameBuffer (medium s)
      = frameTemplate ("Apollo" +:+ pretty j) (pretty c).
Proof.
  induction 1 as [|k s Hs IH Hk]; [by left|].
  destruct (lookup_lt_is_Some_2 _ _ Hk) as [stk Hstk].
  destruct (session_step_at _ _ _ Hstk) as [_ ->].
  destruct (run_step_buffer stk (medium s)) as [-> | Hw]; [done|].
  right. destruct (written_frame _ _ _ _ Hs Hstk Hw) as (Hkn & Hc & Hb).
  exists k, (transmittedCount stk). repeat split; [done|lia|done].
Qed.

Lemma buffer_holds_a_session_frame_witness :
  let s := session_run overlap_schedule (runSession_start 2) in
  reachable 2 s ∧
  (frameBuffer (medium s) = EmptyString
   ∨ ∃ j c : nat, j < 2 ∧ c < j + 1 ∧
       frameBuffer (medium s)
       = frameTemplate ("Apollo" +:+ pretty j) (pretty c)).
Proof.
  intros s. assert (reachable 2 s) as Hs by apply reachable_run, reachable_start.
  split; [assumption|]. exact (buffer_holds_a_session_frame 2 s Hs).
Defined.

(** X5. Collision detection is exact.  A station that has written its
    frame and reads the buffer back detects a collision exactly when the
    buffer holds a frame of another station of the session; otherwise the
    buffer still holds its own frame. *)
Theorem collision_iff_overwritten
    (n i : nat) (s : Session) (st : Station) (f : string) :
  reachable n s →
  stations s !! i = Some st →
  at_ st = AtVerify f →
  (isCollisionDetected f (medium s) = true
   ↔ ∃ j c : nat, j ≠ i ∧ j < n ∧ c ≤ j ∧
       frameBuffer (medium s)
       = frameTemplate ("Apollo" +:+ pretty j) (pretty c)) ∧
  (isCollisionDetected f (medium s) = false ↔ frameBuffer (medium s) = f) ∧
  f = frameTemplate ("Apollo" +:+ pretty i) (pretty (transmittedCount st)).
Proof.
  intros Hs Hst Hat. destruct (reachable_inv _ _ Hs) as [_ Hinv].
  destruct (Hinv _ _ Hst) as (Hn & _ & _ & Hp).
  rewrite Hat in Hp. destruct Hp as [Hf _].
  assert (f = frameTemplate ("Apollo" +:+ pretty i)
                (pretty (transmittedCount st))) as Hf'.
  { rewrite Hf. unfold frameOf. by rewrite Hn. }
  unfold isCollisionDetected. split; [|split; [|done]].
  - rewrite bool_decide_eq_true. split.
    + intros Hne. destruct (verify_inv _ _ Hs _ _ _ Hst Hat) as [Heq|Hother];
        [by destruct Hne|done].
    + intros (j & c & Hji & _ & _ & Hb) Heq. rewrite Hb, Hf' in Heq.
      apply frameTemplate_name_inj, Apollo_inj in Heq. congruence.
  - rewrite bool_decide_eq_false. split.
    + intros H. by destruct (decide (f = frameBuffer (medium s))).
    + intros <-. auto.
Qed.

Lemma collision_iff_overwritten_witness :
  let s := session_run overlap_schedule (runSession_start 2) in
  let f := frameOf (Station_init "Apollo0" 1) in
  let st := goto (AtVerify f) (Station_init "Apollo0" 1) in
  reachable 2 s ∧ stations s !! 0 = Some st ∧
  (isCollisionDetected f (medium s) = false ↔ frameBuffer (medium s) = f).
Proof.
  intros s f st.
  assert (reachable 2 s) as Hs by apply reachable_run, reachable_start.
  assert (stations s !! 0 = Some st) as Hst by (vm_compute; reflexivity).
  repeat (split; [assumption|]).
  exact (proj1 (proj2 (collision_iff_overwritten 2 0 s st f Hs Hst eq_refl))).
Defined.

(** X6. Of two stations that have both written and wait to read the
    buffer back, at most one finds its own frame: if both read now, one of
    them at least detects a collision. *)
Theorem at_most_one_verifier_matches
    (n i j : nat) (s : Session) (sti stj : Station) (fi fj : string) :
  reachable n s → i ≠ j →
  stations s !! i = Some sti → at_ sti = AtVerify fi →
  stations s !! j = Some stj → at_ stj = AtVerify fj →
  isCollisionDetected fi (medium s) = true
  ∨ isCollisionDetected fj (medium s) = true.
Proof.
  intros Hs Hij Hi Hati Hj Hatj. destruct (reachable_inv _ _ Hs) as [_ Hinv].
  destruct (Hinv _ _ Hi) as (Hni & _ & _ & Hpi).
  destruct (Hinv _ _ Hj) as (Hnj & _ & _ & Hpj).
  rewrite Hati in Hpi. rewrite Hatj in Hpj.
  destruct Hpi as [Hfi _]. destruct Hpj as [Hfj _].
  unfold isCollisionDetected.
  destruct (decide (fi = frameBuffer (medium s))) as [Ei|Ei];
    [|left; by apply bool_decide_eq_true].
  right. apply bool_decide_eq_true. intros Ej.
  rewrite <- Ej, Hfi, Hfj in Ei. unfold frameOf in Ei. rewrite Hni, Hnj in Ei.
  apply frameTemplate_name_inj, Apollo_inj in Ei. congruence.
Qed.

Lemma at_most_one_verifier_matches_witness :
  let s := session_run overlap_schedule (runSession_start 2) in
  let fi := frameOf (Station_init "Apollo0" 1) in
  let fj := frameOf (Station_init "Apollo1" 2) in
  reachable 2 s ∧ 0 ≠ 1 ∧
  stations s !! 0 = Some (goto (AtVerify fi) (Station_init "Apollo0" 1)) ∧
  stations s !! 1 = Some (goto (AtVerify fj) (Station_init "Apollo1" 2)) ∧
  (isCollisionDetected fi (medium s) = true
   ∨ isCollisionDetected fj (medium s) = true).
Proof.
  intros s fi fj.
  assert (reachable 2 s) as Hs by apply reachable_run, reachable_start.
  assert (0 ≠ 1) as Hne by lia.
  assert (stations s !! 0 = Some (goto (AtVerify fi) (Station_init "Apollo0" 1)))
    as Hi by (vm_compute; reflexivity).
  assert (stations s !! 1 = Some (goto (AtVerify fj) (Station_init "Apollo1" 2)))
    as Hj by (vm_compute; reflexivity).
  repeat (split; [assumption|]).
  exact (at_most_one_verifier_matches 2 0 1 s _ _ fi fj
           Hs Hne Hi eq_refl Hj eq_refl).
Defined.

(** ** A station's counters *)

Ltac branch :=
  repeat match goal with
    | |- context [if ?c then _ else _] => destruct c eqn:?
    end.

(** X7. A session of one station has no collision: the station never
    enters the collision branch, its [attemptNumber] stays 1, whenever it
    reads the buffer back it finds its own frame, and once it has ended it
    has delivered its one frame. *)
Theorem single_station_session (s : Session) :
  reachable 1 s →
  ∃ st, stations s = [st] ∧
    attemptNumber st = 1 ∧
    at_ st ≠ AtCollide ∧
    at_ st ≠ AtEnd MaxAttemptsExceeded ∧
    (∀ f, at_ st = AtVerify f → isCollisionDetected f (medium s) = false) ∧
    (ended st = true → transmittedCount st = 1).
Proof.
  intros Hs.
  assert (∃ st, stations s = [st] ∧ attemptNumber st = 1 ∧
                at_ st ≠ AtCollide ∧ at_ st ≠ AtEnd MaxAttemptsExceeded)
    as (st & Hst & Ha & Hc & He).
  { induction Hs as [|k s Hs (st & Hst & Ha & Hc & He) Hk].
    - by eexists.
    - rewrite Hst in Hk. simpl in Hk. assert (k = 0) as -> by lia.
      assert (stations s !! 0 = Some st) as Hl by by rewrite Hst.
      unfold session_step. rewrite Hl.
      destruct (run_step st (medium s)) as [st' m'] eqn:E.
      exists st'. rewrite Hst. simpl. split; [done|].
      assert (st' = (run_step st (medium s)).1) as -> by by rewrite E.
      clear E.
      assert (∀ f, at_ st = AtVerify f →
                   isCollisionDetected f (medium s) = false) as Hv.
      { intros f Hat.
        destruct (verify_inv _ _ Hs _ _ _ Hl Hat) as [Hb|(j & c & ? & ? & _)];
          [|lia].
        unfold isCollisionDetected. apply bool_decide_eq_false_2.
        intros Hne. by apply Hne. }
      unfold run_step.
      destruct (at_ st) eqn:Hat; try done;
        try rewrite (Hv _ eq_refl); branch; simpl; by rewrite ?Hat. }
  exists st. repeat (split; [done|]).
  assert (stations s !! 0 = Some st) as Hl by by rewrite Hst.
  split.
  - intros f Hat.
    destruct (verify_inv _ _ Hs _ _ _ Hl Hat) as [Hb|(j & c & ? & ? & _)];
      [|lia].
    unfold isCollisionDetected. apply bool_decide_eq_false_2.
    intros Hne. by apply Hne.
  - destruct (reachable_inv _ _ Hs) as [_ Hinv].
    destruct (Hinv _ _ Hl) as (_ & Hf & _ & Hp).
    unfold ended. destruct (at_ st) as [| | | | | | |[]]; try done.
    intros _. lia.
Qed.

Lemma single_station_session_witness :
  let s := session_run (replicate 7 0) (runSession_start 1) in
  reachable 1 s ∧
  ∃ st, stations s = [st] ∧ attemptNumber st = 1 ∧
        (ended st = true → transmittedCount st = 1).
Proof.
  intros s. assert (reachable 1 s) as Hs by apply reachable_run, reachable_start.
  split; [assumption|].
  destruct (single_station_session s Hs) as (st & H1 & H2 & _ & _ & _ & H6).
  exists st. repeat split; assumption.
Defined.

Lemma exit_inv_step i st m :
  station_inv i st → exit_inv st → exit_inv (run_step st m).1.
Proof.
  unfold station_inv, exit_inv, run_step. intros (_ & _ & Ha & Hp).
  revert Ha Hp. unfold maxAttemptCount.
  destruct (at_ st) as [| | | | | | |[]] eqn:E; intros Ha Hp Hx;
    try (destruct (transmittedCount st <? frameCount st) eqn:Hlt);
    try (destruct (isMediumIdle m));
    try (destruct (isCollisionDetected frame m));
    try (destruct (15 <? attemptNumber st) eqn:Hmax);
    cbn [fst at_ goto set_attemptNumber set_transmittedCount
         frameCount transmittedCount attemptNumber];
    rewrite ?E;
    repeat match goal with
      | H : (_ <? _) = true |- _ => apply Nat.ltb_lt in H
      | H : (_ <? _) = false |- _ => apply Nat.ltb_ge in H
      end;
    try done; try lia.
Qed.

(** X8. A station that has left [run] by the [break] of line 70 has
    [attemptNumber = maxAttemptCount + 1] and fewer deliveries than its
    quota; one that has left by the loop test has [attemptNumber = 1] and
    as many deliveries as its quota, [i + 1]. *)
Theorem counters_at_exit (n i : nat) (s : Session) (st : Station) (e : exit) :
  reachable n s →
  stations s !! i = Some st →
  at_ st = AtEnd e →
  match e with
  | MaxAttemptsExceeded =>
      attemptNumber st = maxAttemptCount + 1 ∧ transmittedCount st < i + 1
  | QuotaReached =>
      attemptNumber st = 1 ∧ transmittedCount st = i + 1
  end.
Proof.
  intros Hs Hst Hat. destruct (reachable_inv _ _ Hs) as [_ Hinv].
  destruct (Hinv _ _ Hst) as (_ & Hf & _ & Hp).
  assert (exit_inv st) as Hx.
  { apply (reachable_station_ind (λ _ st, exit_inv st) n) with s i;
      [done|apply exit_inv_step|done|done]. }
  unfold exit_inv in Hx. rewrite Hat in Hx, Hp. rewrite <- Hf.
  by destruct e.
Qed.

Lemma counters_at_exit_witness :
  let s := session_run (replicate 7 0) (runSession_start 1) in
  let st := goto (AtEnd QuotaReached)
              (set_transmittedCount 1 (Station_init "Apollo0" 1)) in
  reachable 1 s ∧ stations s !! 0 = Some st ∧
  attemptNumber st = 1 ∧ transmittedCount st = 0 + 1.
Proof.
  intros s st. assert (reachable 1 s) as Hs by apply reachable_run, reachable_start.
  assert (stations s !! 0 = Some st) as Hst by (vm_compute; reflexivity).
  repeat (split; [assumption|]).
  exact (counters_at_exit 1 0 s st QuotaReached Hs Hst eq_refl).
Defined.

Lemma run_step_fields i st m :
  station_inv i st →
  name (run_step st m).1 = name st ∧
  frameCount (run_step st m).1 = frameCount st ∧
  transmittedCount st ≤ transmittedCount (run_step st m).1.
Proof.
  intros _. unfold run_step.
  destruct (at_ st) eqn:E;
    try (destruct (transmittedCount st <? frameCount st));
    try (destruct (isMediumIdle m));
    try (destruct (isCollisionDetected frame m));
    try (destruct (maxAttemptCount <? attemptNumber st));
    simpl; repeat split; try done; lia.
Qed.

(** X9. Along every schedule a station keeps its name and its quota, and
    its delivered count never decreases and never exceeds the quota
    [i + 1]. *)
Theorem delivered_count_monotone
    (n i : nat) (sched : list nat) (s : Session) (st st' : Station) :
  reachable n s →
  stations s !! i = Some st →
  stations (session_run sched s) !! i = Some st' →
  name st' = name st ∧
  frameCount st' = frameCount st ∧
  transmittedCount st ≤ transmittedCount st' ≤ i + 1.
Proof.
  revert s st. induction sched as [|k sched IH]; intros s st Hs Hst Hst'.
  - simpl in Hst'. rewrite Hst in Hst'. injection Hst' as <-.
    destruct (reachable_inv _ _ Hs) as [_ Hinv].
    destruct (Hinv _ _ Hst) as (_ & Hf & _ & Hp).
    repeat split; try done. rewrite <- Hf.
    destruct (at_ st) as [| | | | | | |[]]; try destruct Hp; lia.
  - simpl in Hst'.
    assert (reachable n (session_step k s)) as Hs1.
    { destruct (decide (k < length (stations s))).
      - by constructor.
      - rewrite session_step_out by lia. done. }
    destruct (decide (k = i)) as [->|Hki].
    + destruct (session_step_at _ _ _ Hst) as [Hst1 _].
      destruct (IH _ _ Hs1 Hst1 Hst') as (Hn & Hf & Hc1 & Hc2).
      destruct (reachable_inv _ _ Hs) as [_ Hinv].
      destruct (run_step_fields i st (medium s) (Hinv _ _ Hst))
        as (Hn' & Hf' & Hc').
      rewrite Hn, Hf, Hn', Hf'. repeat split; try done; lia.
    + apply (IH _ _ Hs1); [|done]. by rewrite session_step_other.
Qed.

Lemma delivered_count_monotone_witness :
  let s := runSession_start 1 in
  let st' := goto (AtEnd QuotaReached)
               (set_transmittedCount 1 (Station_init "Apollo0" 1)) in
  reachable 1 s ∧
  stations (session_run (replicate 7 0) s) !! 0 = Some st' ∧
  0 ≤ transmittedCount st' ≤ 0 + 1.
Proof.
  intros s st'. assert (reachable 1 s) as Hs by apply reachable_start.
  assert (stations (session_run (replicate 7 0) s) !! 0 = Some st') as Hst'
    by (vm_compute; reflexivity).
  repeat (split; [assumption|]).
  exact (proj2 (proj2 (delivered_count_monotone 1 0 (replicate 7 0) s
                         (Station_init "Apollo0" 1) st' Hs eq_refl Hst'))).
Defined.

(** ** Release of the medium and the end of a session *)

Lemma progressing_station n s :
  reachable n s → all_joined s = false →
  ∃ i st, stations s !! i = Some st ∧ stutters st (medium s) = false.
Proof.
  intros Hs Hj. destruct (isMediumIdle (medium s)) eqn:Hidle.
  - destruct (all_joined_false _ Hj) as (i & st & Hi & He).
    exists i, st. split; [done|]. revert He. unfold stutters, ended.
    rewrite Hidle. by destruct (at_ st).
  - destruct (busy_in_flight _ _ Hs Hidle) as (i & st & Hi & Hin).
    exists i, st. split; [done|]. revert Hin. unfold in_flight, stutters.
    by destruct (at_ st).
Qed.

Lemma stutters_false_step i st m :
  station_inv i st → stutters st m = false →
  steps_left (run_step st m).1 < steps_left st.
Proof.
  intros Hinv Hst. apply (steps_left_step i); [done|..].
  - revert Hst. unfold stutters, ended. by destruct (at_ st).
  - intros Hat. revert Hst. unfold stutters. rewrite Hat.
    by destruct (isMediumIdle m).
Qed.

Lemma stutters_true_step st m :
  stutters st m = true → run_step st m = (st, m).
Proof.
  unfold stutters, run_step.
  destruct (at_ st); try discriminate; [|done].
  by destruct (isMediumIdle m).
Qed.

Lemma not_effective_step i s : effective i s = false → session_step i s = s.
Proof.
  unfold effective, session_step.
  destruct (stations s !! i) as [st|] eqn:Hst; [|done].
  intros Hstut. apply negb_false_iff in Hstut.
  rewrite (stutters_true_step _ _ Hstut).
  rewrite list_insert_id by done. by destruct s.
Qed.

Lemma effective_step_decreases n i s :
  reachable n s → effective i s = true →
  session_steps_left (session_step i s) < session_steps_left s.
Proof.
  intros Hs. unfold effective, session_step, session_steps_left.
  destruct (stations s !! i) as [st|] eqn:Hst; [|done].
  intros Heff. apply negb_true_iff in Heff.
  destruct (reachable_inv _ _ Hs) as [_ Hinv].
  pose proof (stutters_false_step i st (medium s) (Hinv _ _ Hst) Heff) as Hlt.
  destruct (run_step st (medium s)) as [st' m']. simpl in *.
  pose proof (sum_list_insert steps_left _ _ _ st' Hst). lia.
Qed.

(** X10. A session never gets stuck.  As long as some thread has not ended,
    some thread can take a step that is no fruitless poll and changes the
    session: the remaining threads are never all polling a busy medium. *)
Theorem no_deadlock (n : nat) (s : Session) :
  reachable n s →
  all_joined s = false →
  ∃ i st, stations s !! i = Some st ∧
          ended st = false ∧
          (at_ st = AtSense → isMediumIdle (medium s) = true) ∧
          effective i s = true ∧
          session_step i s ≠ s.
Proof.
  intros Hs Hj.
  destruct (progressing_station _ _ Hs Hj) as (i & st & Hi & Hstut).
  assert (effective i s = true) as Heff.
  { unfold effective. by rewrite Hi, Hstut. }
  exists i, st. split; [done|]. split; [|split; [|split; [done|]]].
  - revert Hstut. unfold stutters, ended. by destruct (at_ st).
  - intros Hat. revert Hstut. unfold stutters. rewrite Hat.
    by destruct (isMediumIdle (medium s)).
  - intros Heq. pose proof (effective_step_decreases _ _ _ Hs Heff) as Hlt.
    rewrite Heq in Hlt. lia.
Qed.

Lemma no_deadlock_witness :
  let s := session_run overlap_schedule (runSession_start 2) in
  reachable 2 s ∧ all_joined s = false ∧
  ∃ i, effective i s = true ∧ session_step i s ≠ s.
Proof.
  intros s. assert (reachable 2 s) as Hs by apply reachable_run, reachable_start.
  assert (all_joined s = false) as Hj by (vm_compute; reflexivity).
  repeat (split; [assumption|]).
  destruct (no_deadlock 2 s Hs Hj) as (i & st & _ & _ & _ & H4 & H5).
  exists i. split; assumption.
Defined.

(** X11. While the medium is marked busy, some station is about to write
    its frame, or has written it and still has it in the buffer, or is in
    the success branch, so that the medium will be marked idle again; and
    once every station has ended, the medium is idle. *)
Theorem medium_released (n : nat) (s : Session) :
  reachable n s →
  (isMediumIdle (medium s) = false →
     ∃ i st, stations s !! i = Some st ∧
       (at_ st = AtSuccess
        ∨ (∃ f, at_ st = AtWrite f)
        ∨ at_ st = AtVerify (frameBuffer (medium s)))) ∧
  (all_joined s = true → isMediumIdle (medium s) = true).
Proof.
  intros Hs.
  assert (isMediumIdle (medium s) = false →
          ∃ i st, stations s !! i = Some st ∧
            (at_ st = AtSuccess ∨ (∃ f, at_ st = AtWrite f)
             ∨ at_ st = AtVerify (frameBuffer (medium s)))) as Hbusy.
  { intros Hb. destruct (busy_in_flight _ _ Hs Hb) as (i & st & Hi & Hin).
    exists i, st. split; [done|]. revert Hin. unfold in_flight.
    destruct (at_ st); try done; eauto. intros ->. auto. }
  split; [done|]. intros Hj.
  destruct (isMediumIdle (medium s)) eqn:Hidle; [done|].
  destruct (Hbusy eq_refl) as (i & st & Hi & Hat).
  destruct (all_joined_lookup _ _ _ Hj Hi) as [e He].
  rewrite He in Hat. by destruct Hat as [?|[[? ?]|?]].
Qed.

Lemma medium_released_witness :
  let s := session_run (replicate 7 0) (runSession_start 1) in
  reachable 1 s ∧ all_joined s = true ∧ isMediumIdle (medium s) = true.
Proof.
  intros s. assert (reachable 1 s) as Hs by apply reachable_run, reachable_start.
  assert (all_joined s = true) as Hj by (vm_compute; reflexivity).
  repeat (split; [assumption|]).
  exact (proj2 (medium_released 1 s Hs) Hj).
Defined.

Lemma steps_left_start n :
  session_steps_left (runSession_start n) = 60 * n * n + 178 * n.
Proof.
  unfold session_steps_left, runSession_start, runSession_stations. simpl.
  induction n as [|n IH]; [done|].
  rewrite seq_S, !fmap_app, sum_list_with_app, IH. simpl.
  unfold steps_left, maxAttemptCount. simpl. lia.
Qed.

Lemma steps_left_reachable n s :
  reachable n s → session_steps_left s ≤ 60 * n * n + 178 * n.
Proof.
  induction 1 as [|i s Hs IH Hi]; [by rewrite steps_left_start|].
  destruct (effective i s) eqn:Heff.
  - pose proof (effective_step_decreases _ _ _ Hs Heff). lia.
  - by rewrite not_effective_step.
Qed.

Lemma effective_steps_left n sched s :
  reachable n s →
  effective_steps sched s + session_steps_left (session_run sched s)
  ≤ session_steps_left s.
Proof.
  revert s. induction sched as [|i sched IH]; intros s Hs; [simpl; lia|].
  simpl. destruct (effective i s) eqn:Heff.
  - pose proof (effective_step_decreases _ _ _ Hs Heff) as Hlt.
    assert (reachable n (session_step i s)) as Hs1.
    { constructor; [done|]. unfold effective in Heff.
      destruct (stations s !! i) eqn:E; [|done]. by eapply lookup_lt_Some. }
    specialize (IH _ Hs1). lia.
  - rewrite not_effective_step by done. specialize (IH _ Hs). lia.
Qed.

(** X12. A session ends after boundedly many steps, polling apart.  A step
    that is not effective (a poll of a busy medium, or a step of a thread
    that has ended) leaves the session as it is, and whatever the schedule,
    the threads of [runSession(n)] take at most [60 n^2 + 178 n] effective
    steps. *)
Theorem effective_steps_bounded (n : nat) (sched : list nat) (s : Session) :
  reachable n s →
  effective_steps sched s ≤ 60 * n * n + 178 * n ∧
  (∀ i, effective i s = false → session_step i s = s) ∧
  (∀ i, effective i s = true → session_step i s ≠ s).
Proof.
  intros Hs. split; [|split].
  - pose proof (effective_steps_left n sched s Hs).
    pose proof (steps_left_reachable n s Hs). lia.
  - intros i. apply not_effective_step.
  - intros i Heff Heq.
    pose proof (effective_step_decreases _ _ _ Hs Heff) as Hlt.
    rewrite Heq in Hlt. lia.
Qed.

Lemma effective_steps_bounded_witness :
  let s := runSession_start 16 in
  reachable 16 s ∧
  effective_steps (last_attempt_schedule ++ [0; 0; 0]) s ≤ 60 * 16 * 16 + 178 * 16.
Proof.
  intros s. assert (reachable 16 s) as Hs by apply reachable_start.
  split; [assumption|].
  exact (proj1 (effective_steps_bounded 16 (last_attempt_schedule ++ [0; 0; 0])
                  s Hs)).
Defined.

(** ** Sleeps *)



(** ** The command line and the session *)

(** X14. When the program starts a session, the session has at least one
    station and at most [cpu_count()] stations, as many as the argument
    says, with the names [Apollo0], [Apollo1], ... all different. *)
Theorem main_session_size
    (int : string → option Z) (cpu_count : Z) (argv : list string) (k : Z) :
  main int cpu_count argv = RunSession k →
  let sts := runSession_stations (Z.to_nat k) in
  Z.of_nat (length sts) = k ∧
  1 ≤ length sts ∧
  (Z.of_nat (length sts) ≤ cpu_count)%Z ∧
  NoDup (name <$> sts) ∧
  ∀ i, i < length sts →
    sts !! i = Some (Station_init ("Apollo" +:+ pretty i) (i + 1)).
Proof.
  intros Hmain sts.
  assert (1 ≤ k ≤ cpu_count)%Z as [Hlo Hhi].
  { revert Hmain. unfold main.
    destruct argv as [|prog [|arg [|? ?]]]; try done.
    destruct (int arg) as [k'|]; [|done].
    destruct (cpu_count <? k')%Z eqn:Hcpu; [done|].
    destruct (k' <? 1)%Z eqn:Hpos; [done|].
    intros [= ->]. apply Z.ltb_ge in Hcpu, Hpos. done. }
  unfold sts. rewrite runSession_stations_length.
  split; [lia|]. split; [lia|]. split; [lia|]. split.
  - unfold runSession_stations. rewrite <- list_fmap_compose.
    apply NoDup_fmap_2; [|apply NoDup_seq]. intros i j. apply Apollo_inj.
  - intros i Hi. by apply runSession_stations_lookup.
Qed.

Lemma main_session_size_witness :
  main int_ascii 4 ["task1.py"; "3"] = RunSession 3 ∧
  Z.of_nat (length (runSession_stations (Z.to_nat 3))) = 3%Z ∧
  1 ≤ length (runSession_stations (Z.to_nat 3)).
Proof.
  assert (main int_ascii 4 ["task1.py"; "3"] = RunSession 3) as H
    by reflexivity.
  split; [assumption|].
  pose proof (main_session_size int_ascii 4 _ 3 H) as (H1 & H2 & _).
  split; [exact H1 | exact H2].
Defined.

(** ** The last writer *)

Lemma before_write_step i st m :
  station_inv i st → before_write st →
  (∀ f, at_ st ≠ AtWrite f) →
  before_write (run_step st m).1.
Proof.
  unfold station_inv, before_write, run_step. intros (_ & Hf & _ & _) [Hc Hp] Hw.
  revert Hp Hw. destruct (at_ st) eqn:E; intros Hp Hw; try done.
  - assert ((transmittedCount st <? frameCount st) = true) as ->
      by (apply Nat.ltb_lt; lia).
    simpl. by rewrite ?E.
  - destruct (isMediumIdle m); simpl; by rewrite ?E.
  - by destruct (Hw frame).
Qed.

Lemma wrote_last_step i st m :
  station_inv i st → wrote_last (frameBuffer m) st →
  (∀ f, at_ st ≠ AtWrite f) →
  wrote_last (frameBuffer m) (run_step st m).1.
Proof.
  unfold station_inv, wrote_last, run_step, isCollisionDetected.
  intros (_ & _ & _ & Hp) Hl Hw. revert Hp Hl Hw.
  destruct (at_ st) as [| | | | | | |[]] eqn:E; intros Hp Hl Hw;
    try (by destruct (Hw frame)); branch; simpl; rewrite ?E; try done.
  - apply bool_decide_eq_true in Heqb. by destruct Heqb.
  - destruct Hp as [Hf _]. by rewrite <- Hl, Hf.
  - exists (transmittedCount st). split; [done|]. by rewrite Hl.
Qed.

Lemma at_write_dec st : (∃ f, at_ st = AtWrite f) ∨ (∀ f, at_ st ≠ AtWrite f).
Proof. destruct (at_ st); eauto; by right. Qed.

Lemma last_writer n s : reachable n s → last_writer_inv s.
Proof.
  induction 1 as [|k s Hs IH Hk].
  - left. split; [done|]. intros i st Hst. simpl in Hst.
    assert (i < n) as Hi.
    { apply lookup_lt_Some in Hst. by rewrite runSession_stations_length in Hst. }
    rewrite runSession_stations_lookup in Hst by done. by injection Hst as <-.
  - destruct (lookup_lt_is_Some_2 _ _ Hk) as [stk Hstk].
    destruct (session_step_at _ _ _ Hstk) as [Hstk' Hm].
    destruct (reachable_inv _ _ Hs) as [_ Hinv].
    pose proof (Hinv _ _ Hstk) as Hinvk.
    unfold last_writer_inv in *. rewrite Hm.
    destruct (at_write_dec stk) as [[f Hat]|Hnw].
    + right. exists k, (run_step stk (medium s)).1. split; [done|].
      unfold wrote_last, run_step. rewrite Hat. by simpl.
    + assert (frameBuffer (run_step stk (medium s)).2
              = frameBuffer (medium s)) as Hsame.
      { destruct (run_step_buffer stk (medium s)) as [?|Hw]; [done|].
        by destruct (Hnw _ Hw). }
      rewrite Hsame. destruct IH as [[Hb Hall]|(j & stj & Hj & Hl)].
      * left. split; [done|]. intros i st Hst.
        destruct (decide (k = i)) as [->|Hki].
        -- rewrite Hstk' in Hst. injection Hst as <-.
           apply (before_write_step i); [done|by eapply Hall|done].
        -- rewrite session_step_other in Hst by done. by eapply Hall.
      * right. destruct (decide (k = j)) as [->|Hkj].
        -- exists j, (run_step stk (medium s)).1. split; [done|].
           rewrite Hstk in Hj. injection Hj as <-.
           by apply (wrote_last_step j).
        -- exists j, stj. split; [|done]. by rewrite session_step_other.
Qed.

(** X15. A session never ends with every station having given up: when
    all the stations of [runSession(n)], [n >= 1], have ended, the station
    that wrote the buffer last has delivered all its frames, and the buffer
    still holds its last frame. *)
Theorem last_writer_reaches_quota (n : nat) (s : Session) :
  reachable n s → 1 ≤ n → all_joined s = true →
  ∃ j st, stations s !! j = Some st ∧
    at_ st = AtEnd QuotaReached ∧
    transmittedCount st = j + 1 ∧
    frameBuffer (medium s)
    = frameTemplate ("Apollo" +:+ pretty j) (pretty j).
Proof.
  intros Hs Hn Hj. destruct (reachable_inv _ _ Hs) as [Hlen Hinv].
  destruct (last_writer _ _ Hs) as [[_ Hall]|(j & st & Hst & Hl)].
  - destruct (lookup_lt_is_Some_2 (stations s) 0) as [st Hst]; [lia|].
    destruct (all_joined_lookup _ _ _ Hj Hst) as [e He].
    destruct (Hall _ _ Hst) as [_ Hp]. by rewrite He in Hp.
  - destruct (all_joined_lookup _ _ _ Hj Hst) as [e He].
    destruct (Hinv _ _ Hst) as (Hname & Hf & _ & Hp).
    unfold wrote_last in Hl. rewrite He in Hl, Hp.
    destruct e; [|done]. destruct Hl as (c & Hc & Hb).
    exists j, st. split; [done|]. split; [done|]. split; [lia|].
    rewrite Hb, Hname. by replace c with j by lia.
Qed.

Lemma last_writer_reaches_quota_witness :
  let s := session_run (replicate 7 0) (runSession_start 1) in
  reachable 1 s ∧ 1 ≤ 1 ∧ all_joined s = true ∧
  ∃ j st, stations s !! j = Some st ∧ at_ st = AtEnd QuotaReached.
Proof.
  intros s. assert (reachable 1 s) as Hs by apply reachable_run, reachable_start.
  assert (1 ≤ 1) as Hn by lia.
  assert (all_joined s = true) as Hj by (vm_compute; reflexivity).
  repeat (split; [assumption|]).
  destruct (last_writer_reaches_quota 1 s Hs Hn Hj) as (j & st & H1 & H2 & _).
  exists j, st. split; assumption.
Defined.
